(** * 13Primes: the unified 364-degree system, embedded and verified

    A shallow embedding of the numeric core of the 13Primes library
    (TypeScript) and the proofs of its specified properties.

    Modelling conventions.
    - A JavaScript [number] that holds an integer (trits, day counts,
      millisecond time values, years) is a [Z]; a [number] that holds a
      degree is an exact rational [Q].  Rounding of IEEE doubles is not
      modelled: [%] is the truncated remainder, [Math.floor], [Math.round]
      and [Math.abs] are the exact functions.
    - A [Date] is its time value, the integer count of milliseconds since
      1970-01-01T00:00:00Z.  [Date.UTC] and [getUTCFullYear] follow the
      ECMAScript definitions ([Day], [DayFromYear], [YearFromTime],
      [MakeDay], [MakeFullYear]); time values are unbounded integers, the
      limit of 8.64e15 ms on a time value is not modelled.
    - A [throw] and a property read on [undefined] are the [Throw] outcome
      of [JS.result]; an array read out of range is [None].
    - Strings built only for display ([formatted]) are left out of the
      records. *)

From Stdlib Require Import ZArith QArith Qround Qabs Lia Lqa List String Bool.
From Stdlib Require Import DecimalString.
From Equations Require Import Equations.
Import ListNotations.

Open Scope string_scope.
Open Scope Z_scope.

(* ===================================================================== *)
(** * The fragment of ECMAScript the sources rely on                      *)
(* ===================================================================== *)

Module JS.

(** Outcome of a call: a value, or an exception with its message. *)
Inductive result (A : Type) : Type :=
| Ok (a : A)
| Throw (message : string).
Arguments Ok {A} a.
Arguments Throw {A} message.

(** [String(n)] for an integer. *)
Definition String_of (z : Z) : string := NilZero.string_of_int (Z.to_int z).

(** [a[i]] for an integer [i]: undefined out of range. *)
Definition index {A : Type} (a : list A) (i : Z) : option A :=
  if i <? 0 then None else nth_error a (Z.to_nat i).

(** ** Numbers that hold degrees *)

Definition ltb (x y : Q) : bool := negb (Qle_bool y x).

(** Rounding toward zero, as the quotient of [%] does. *)
Definition trunc (x : Q) : Z := if Qle_bool 0 x then Qfloor x else Qceiling x.

(** [a % b]: the remainder has the sign of the dividend. *)
Definition rem (a b : Q) : Q := (a - b * inject_Z (trunc (a / b)))%Q.

(** [Math.round]: nearest integer, a tie goes up. *)
Definition Math_round (x : Q) : Z := Qfloor (x + (1 # 2))%Q.

(** ** Time values *)

Definition msPerDay : Z := 86400000.

Definition Day (t : Z) : Z := t / msPerDay.

Definition DaysInYear (y : Z) : Z :=
  if negb (y mod 4 =? 0) then 365
  else if negb (y mod 100 =? 0) then 366
  else if negb (y mod 400 =? 0) then 365
  else 366.

Definition DayFromYear (y : Z) : Z :=
  365 * (y - 1970) + (y - 1969) / 4 - (y - 1901) / 100 + (y - 1601) / 400.

Definition TimeFromYear (y : Z) : Z := msPerDay * DayFromYear y.

(** [YearFromTime t] is the largest [y] with [TimeFromYear y <= t]
    (lemma [YearFromTime_spec] below); it is computed from an estimate
    that is off by at most one. *)
Definition YearFromTime (t : Z) : Z :=
  let d := Day t in
  let y0 := 1970 + (400 * d) / 146097 in
  if DayFromYear (y0 + 1) <=? d then y0 + 1
  else if DayFromYear y0 <=? d then y0
  else y0 - 1.

Definition InLeapYear (y : Z) : Z := if DaysInYear y =? 366 then 1 else 0.

(** Day within the year of the first day of month [mn] (0 = January). *)
Definition monthStart (mn : Z) (leap : Z) : Z :=
  match mn with
  | 0 => 0
  | 1 => 31
  | 2 => 59 + leap
  | 3 => 90 + leap
  | 4 => 120 + leap
  | 5 => 151 + leap
  | 6 => 181 + leap
  | 7 => 212 + leap
  | 8 => 243 + leap
  | 9 => 273 + leap
  | 10 => 304 + leap
  | _ => 334 + leap
  end.

(** [MakeDay year month date]: the day number of that civil date. *)
Definition MakeDay (year month date : Z) : Z :=
  let ym := year + month / 12 in
  let mn := month mod 12 in
  DayFromYear ym + monthStart mn (InLeapYear ym) + date - 1.

(** [Date.UTC] reads a year from 0 to 99 as 1900 + year. *)
Definition MakeFullYear (year : Z) : Z :=
  if (0 <=? year) && (year <=? 99) then 1900 + year else year.

(** [Date.UTC(year, month, date)], midnight of that day. *)
Definition Date_UTC (year month date : Z) : Z :=
  MakeDay (MakeFullYear year) month date * msPerDay.

End JS.

(* ===================================================================== *)
(** * core/types.ts                                                       *)
(* ===================================================================== *)

Module Types.

(** [Representation] is the string tag the functions compare with [===]. *)
Definition Representation := string.

Inductive Meaning := MeaningFalse | MeaningNeutral | MeaningTrue.

Record TernaryValue := {
  value : Z;
  representation : Representation;
  meaning : Meaning }.

Record ConversionResult := {
  original : TernaryValue;
  converted : TernaryValue;
  bijection : string }.

Record TernaryTriple := { triple_a : Z; triple_b : Z; triple_c : Z }.

Record HouseResult := {
  house : option Z;          (* [None] is NaN *)
  houseName : string;
  alsoIn13th : bool;
  primeDegree : Q }.

Record AspectConfig := {
  angle : Q;
  orb : Q;
  nature : string;
  symbol : string;
  power : Z;
  harmonic : Z;
  phaseCount : Z;
  gf3 : Z;
  ternaryResonance : string }.

Record AspectTernary := {
  t_phaseCount : Z;
  t_gf3 : Z;
  t_resonance : string;
  t_bijectiveNotation : string }.

Record AspectResult := {
  type : string;
  exact : Q;
  r_orb : Q;
  r_harmonic : Z;
  ternary : option AspectTernary }.

Record AspectTernarySignature := {
  s_phaseCount : Z;
  s_bijectiveTernary : string;
  s_gf3 : Z;
  s_resonance : option string;
  s_resonanceTriple : TernaryTriple }.

Record MoonData := {
  number : Z;
  name : string;
  signature : string;
  tone : string;
  m_arc : string }.

Record ThirteenMoonDate := {
  moonNumber : Z;
  moonName : string;
  dayOfMoon : Z;
  galacticSignature : string;
  harmonicTone : string;
  arc : string;
  dayOfYear : Z;
  isDayOutOfTime : bool;
  isHunabKu : bool;
  weekday : option string;   (* [None] is undefined *)
  totalCycles : Z }.

Record OperationResult := {
  operand_a : Z;
  operand_b : Z;
  operation : string;
  result : Z;
  o_representation : Representation;
  constantTime : bool }.

Record SalviSign := {
  sign_name : string;
  sign_archetype : string;
  traditional : string;
  sign_element : string;
  startDegree : Q;
  endDegree : Q;
  sign_tribonacci : Z }.

Record SalviSignResult := {
  signNumber : Z;
  signName : string;
  archetype : string;
  degreeInSign : Q;
  element : string;
  tribonacci : Z }.

Record AspectData := {
  planet1 : string;
  planet2 : string;
  aspect : string;
  d_angle : Q;
  exactAngle : Q;
  d_orb : Q;
  d_harmonic : Z;
  d_ternary : option AspectTernary }.

Record AspectResonance := {
  gf3Value : Z;
  resonanceType : option string;   (* [None] is undefined *)
  cosmicFrequency : Q }.

Record TernaryHarmony := {
  difference : Q;
  phaseOffset : Z;
  harmonicResonance : string;
  ternarySignature : string }.

Record SignMoon := { b_sign : string; b_moon : string; b_resonance : string }.

Record SpaceTimeBridge := {
  sign : string;
  moon : string;
  resonance : string;
  phaseNumber : Z;
  bijectiveTernary : string;
  bridge_arc : string }.

Record MoonAspect := {
  phaseDifference : Z;
  ma_resonance : option string;    (* [None] is undefined *)
  ma_gf3 : Z }.

Record GalacticSignature := {
  gs_signature : string;
  gs_tone : string;
  gs_moonName : string;
  gs_arc : string;
  gs_weekday : string }.

Record Temporal := {
  tp_moonNumber : Z;
  tp_moonName : string;
  tp_galacticSignature : string;
  tp_harmonicTone : string;
  tp_arc : string }.

Record Unity := {
  u_phaseNumber : Z;
  u_degreeInPhase : Q;
  u_dayInMoon : Z;
  u_bijectiveTernary : string }.

Record FullResonance := { spatial : SpaceTimeBridge; temporal : Temporal; unity : Unity }.

Record Stellium := { st_planets : list string; st_sign : string }.

End Types.

(* ===================================================================== *)
(** * core/constants.ts                                                   *)
(* ===================================================================== *)

Module Constants.
Import Types.

Definition PRIME_CIRCLE : Q := 364.
Definition PHASE_SIZE : Q := 28.
Definition NUM_PHASES : Z := 13.
Definition EPSILON : Q := 1 # 1000000000.

(** [RESONANCE_TYPES[k]]; a key other than 0, 1, 2 reads undefined. *)
Definition RESONANCE_TYPES (k : Z) : option string :=
  match k with
  | 0 => Some "Completion (Return to Source)"
  | 1 => Some "Initiation (New Beginning)"
  | 2 => Some "Manifestation (Creative Expression)"
  | _ => None
  end.

Definition HOUSE_NAMES : list string :=
  [ "Prima"; "Vector Prime"; "Solus Prime"; "Liege Maximo"; "Alpha Trion";
    "Micronus Prime"; "Nexus Prime"; "Alchemist Prime"; "Onyx Prime";
    "Amalgamous Prime"; "Quintus Prime"; "The Fallen"; "Optimus Prime" ].

Definition mkAspect (a o : Q) (n s : string) (p h pc g : Z) (t : string)
  : AspectConfig :=
  {| angle := a; orb := o; nature := n; symbol := s; power := p;
     harmonic := h; phaseCount := pc; gf3 := g; ternaryResonance := t |}.

(** [ASPECT_TYPES], as the list of its entries in insertion order, which
    is the order [Object.entries] yields them in. *)
Definition ASPECT_TYPES : list (string * AspectConfig) :=
  [ ("conjunction", mkAspect 0 8 "fusion" "☌" 10 1 0 0 "Completion");
    ("opposition", mkAspect 182 8 "tension" "☍" 9 2 6 0 "Completion");
    ("trine", mkAspect (121333 # 1000) 6 "harmony" "△" 8 3 4 1 "Initiation");
    ("square", mkAspect 91 6 "challenge" "□" 8 4 3 0 "Completion");
    ("sextile", mkAspect (60667 # 1000) 4 "opportunity" "⚹" 6 6 2 2 "Manifestation");
    ("quintile", mkAspect (728 # 10) 3 "creative" "Q" 5 5 3 0 "Completion");
    ("septile", mkAspect 52 2 "mystical" "S" 4 7 2 2 "Manifestation");
    ("novile", mkAspect (40444 # 1000) 2 "evolutionary" "N" 4 9 1 1 "Initiation");
    ("tredecile", mkAspect 28 2 "phase-resonance" "T" 7 13 1 1 "Initiation");
    ("quincunx", mkAspect (151667 # 1000) 3 "adjustment" "⚻" 5 0 5 2 "Manifestation") ].

(** [ASPECT_TYPES_360]: angle, orb, nature, symbol, power. *)
Definition ASPECT_TYPES_360 : list (string * (Q * Q * string * string * Z)) :=
  [ ("conjunction", (0%Q, 8%Q, "fusion", "☌", 10));
    ("opposition", (180%Q, 8%Q, "tension", "☍", 9));
    ("trine", (120%Q, 6%Q, "harmony", "△", 8));
    ("square", (90%Q, 6%Q, "challenge", "□", 8));
    ("sextile", (60%Q, 4%Q, "opportunity", "⚹", 6));
    ("quincunx", (150%Q, 3%Q, "adjustment", "⚻", 5)) ].

Definition mkSign (n a t e : string) (s f : Q) (tr : Z) : SalviSign :=
  {| sign_name := n; sign_archetype := a; traditional := t; sign_element := e;
     startDegree := s; endDegree := f; sign_tribonacci := tr |}.

Definition SALVI_SIGNS : list SalviSign :=
  [ mkSign "Ares Prime" "The Warrior of Light" "Aries energy" "Cardinal Fire" 0 28 1;
    mkSign "Vectoris" "Guardian of Pathways" "Taurus/Gemini blend"
      "Fixed Earth-Mutable Air" 28 56 1;
    mkSign "Solaris" "The Forgemaster" "Cancer/Leo essence"
      "Cardinal Water-Fixed Fire" 56 84 2;
    mkSign "Liegis" "The Relational Matrix" "Virgo/Libra synthesis"
      "Mutable Earth-Cardinal Air" 84 112 4;
    mkSign "Alphais" "The Sage Chronicler" "Scorpio wisdom" "Fixed Water" 112 140 7;
    mkSign "Micronis" "The Connector" "Sagittarius expansion" "Mutable Fire" 140 168 13;
    mkSign "Nexus" "The Combiner" "Capricorn structure" "Cardinal Earth" 168 196 24;
    mkSign "Alchemis" "The Transformer" "Aquarius innovation" "Fixed Air" 196 224 44;
    mkSign "Onyxis" "The Beast-Master" "Pisces/Ophiuchus mystery" "Mutable Water"
      224 252 81;
    mkSign "Amalgamis" "The Shapeshifter" "Aries/Taurus rebirth"
      "Cardinal Fire-Fixed Earth" 252 280 149;
    mkSign "Quintis" "The Explorer-Creator" "Gemini/Cancer curiosity"
      "Mutable Air-Cardinal Water" 280 308 274;
    mkSign "Fallenis" "The Shadow Integrator" "Leo/Virgo descent"
      "Fixed Fire-Mutable Earth" 308 336 504;
    mkSign "Optimis" "The Cosmic Steward" "Libra/Scorpio transcendence"
      "Cardinal Air-Fixed Water" 336 364 927 ].

End Constants.

(* ===================================================================== *)
(** * core/conversions.ts                                                 *)
(* ===================================================================== *)

Module Conversions.
Import Types Constants.

(** The idiom [((x % m) + m) % m], used throughout. *)
Definition wrap (x m : Q) : Q := JS.rem (JS.rem x m + m) m.

Definition tropicalToPrime (tropicalDegree : Q) : Q :=
  let normalized360 := wrap tropicalDegree 360 in
  let prime := (normalized360 * PRIME_CIRCLE / 360)%Q in
  let prime := if JS.ltb (Qabs (prime - PRIME_CIRCLE)) EPSILON then 0%Q else prime in
  wrap prime PRIME_CIRCLE.

(** The loop of [getPrimeCusps], [i] running from [i] to [NUM_PHASES - 1]. *)
Fixpoint getPrimeCusps_from (ascPrime : Q) (i : Z) (count : nat) : list Q :=
  match count with
  | O => []
  | S count' =>
      wrap (ascPrime + inject_Z i * PHASE_SIZE) PRIME_CIRCLE
        :: getPrimeCusps_from ascPrime (i + 1) count'
  end.

Definition getPrimeCusps (tropicalAscendant : Q) : list Q :=
  getPrimeCusps_from (tropicalToPrime tropicalAscendant) 0 (Z.to_nat NUM_PHASES).

(** [houseCusps[0]] of an empty array is undefined, [tropicalToPrime] of it
    is NaN, and so is every number computed from it: a comparison with NaN
    is false and [HOUSE_NAMES[NaN]] is undefined. *)
Definition getHouseFromDegree (degree : Q) (houseCusps : list Q) : HouseResult :=
  let primeDegree := tropicalToPrime degree in
  match nth_error houseCusps 0 with
  | None =>
      {| house := None; houseName := "House NaN"; alsoIn13th := false;
         primeDegree := primeDegree |}
  | Some cusp0 =>
      let ascendantPrime := tropicalToPrime cusp0 in
      let relativePos := wrap (primeDegree - ascendantPrime) PRIME_CIRCLE in
      let houseIndex := Qfloor (relativePos / PHASE_SIZE) in
      let houseIndex := if houseIndex >=? NUM_PHASES then NUM_PHASES - 1 else houseIndex in
      {| house := Some (houseIndex + 1);
         houseName :=
           match JS.index HOUSE_NAMES houseIndex with
           | Some n => n
           | None => "House " ++ JS.String_of (houseIndex + 1)
           end;
         alsoIn13th := houseIndex + 1 =? 13;
         primeDegree := primeDegree |}
  end.

Definition isIn13thHouse (degree : Q) (houseCusps : list Q) : bool :=
  if Z.of_nat (List.length houseCusps) <? NUM_PHASES then false
  else
    match nth_error houseCusps 0 with
    | None => false
    | Some cusp0 =>
        let primeDegree := tropicalToPrime degree in
        let ascendantPrime := tropicalToPrime cusp0 in
        let relativePos := wrap (primeDegree - ascendantPrime) PRIME_CIRCLE in
        let house13Start := (12 * PHASE_SIZE)%Q in
        let house13End := (13 * PHASE_SIZE)%Q in
        Qle_bool house13Start relativePos && JS.ltb relativePos house13End
    end.

Definition tropicalToSalvi (tropicalDegree : Q) : Q := tropicalToPrime tropicalDegree.

Definition tropicalToSalviLegacy (tropicalDegree : Q) : Q :=
  JS.rem (JS.rem (tropicalDegree * 728 / 360) 728 + 728) 728.

Definition getSalviSignFromPrimeDegree (primeDegree : Q) : JS.result SalviSignResult :=
  let normalizedDegree := wrap primeDegree PRIME_CIRCLE in
  let normalizedDegree :=
    if JS.ltb (Qabs (normalizedDegree - PRIME_CIRCLE)) EPSILON then 0%Q
    else normalizedDegree in
  let signIndex := Qfloor (normalizedDegree / PHASE_SIZE) in
  let signIndex := if signIndex >=? NUM_PHASES then NUM_PHASES - 1 else signIndex in
  let signIndex := if signIndex <? 0 then 0 else signIndex in
  match JS.index SALVI_SIGNS signIndex with
  | None => JS.Throw "TypeError: Cannot read properties of undefined"
  | Some sign =>
      JS.Ok {| signNumber := signIndex + 1;
               signName := sign_name sign;
               archetype := sign_archetype sign;
               degreeInSign := JS.rem normalizedDegree PHASE_SIZE;
               element := sign_element sign;
               tribonacci := sign_tribonacci sign |}
  end.

Definition getSalviSignFromTropical (tropicalDegree : Q) : JS.result SalviSignResult :=
  let primeDegree := tropicalToPrime tropicalDegree in
  getSalviSignFromPrimeDegree primeDegree.

(** The [while (num > 0)] loop of [convertToTernary]; [unshift] puts the
    new digit in front. *)
Equations? convertToTernary_loop (num : Z) (digits : list string) : list string
  by wf (Z.to_nat num) lt :=
  convertToTernary_loop num digits with Z_lt_dec 0 num => {
    | left _ => convertToTernary_loop (num / 3) (JS.String_of (Z.rem num 3) :: digits)
    | right _ => digits }.
Proof.
  assert (num / 3 < num) by (apply Z.div_lt; lia).
  assert (0 <= num / 3) by (apply Z.div_pos; lia).
  lia.
Qed.

Definition convertToTernary (n : Z) : string :=
  if n =? 0 then "0₃"
  else String.concat "" (convertToTernary_loop n []) ++ "₃".

End Conversions.

(* ===================================================================== *)
(** * core/ternary-astro.ts                                               *)
(* ===================================================================== *)

Module Ternary.
Import Types Constants.

Definition getTritMeaning (value : Z) (representation : Representation) : Meaning :=
  if String.eqb representation "A" then
    if value =? -1 then MeaningFalse else if value =? 0 then MeaningNeutral else MeaningTrue
  else if String.eqb representation "B" then
    if value =? 0 then MeaningFalse else if value =? 1 then MeaningNeutral else MeaningTrue
  else if String.eqb representation "C" then
    if value =? 1 then MeaningFalse else if value =? 2 then MeaningNeutral else MeaningTrue
  else MeaningNeutral.

Definition convertTrit (value : Z) (from to : Representation)
  : JS.result ConversionResult :=
  let done (converted : Z) (bijection : string) :=
    JS.Ok
      {| original :=
           {| value := value; representation := from;
              meaning := getTritMeaning value from |};
         converted :=
           {| value := converted; representation := to;
              meaning := getTritMeaning converted to |};
         bijection := bijection |} in
  if String.eqb from to then done value "identity"
  else if String.eqb from "A" && String.eqb to "B" then done (value + 1) "f(a) = a + 1"
  else if String.eqb from "A" && String.eqb to "C" then done (value + 2) "f(a) = a + 2"
  else if String.eqb from "B" && String.eqb to "A" then done (value - 1) "f(b) = b - 1"
  else if String.eqb from "B" && String.eqb to "C" then done (value + 1) "f(b) = b + 1"
  else if String.eqb from "C" && String.eqb to "A" then done (value - 2) "f(c) = c - 2"
  else if String.eqb from "C" && String.eqb to "B" then done (value - 1) "f(c) = c - 1"
  else JS.Throw ("Invalid conversion: " ++ from ++ " to " ++ to).

(** The [while (num > 0)] loop of [toBijectiveTernary]; [unshift] puts the
    new digit in front. *)
Equations? toBijectiveTernary_loop (num : Z) (digits : list Z) : list Z
  by wf (Z.to_nat num) lt :=
  toBijectiveTernary_loop num digits with Z_lt_dec 0 num => {
    | left _ with Z.rem num 3 =? 0 => {
        | true => toBijectiveTernary_loop (num / 3 - 1) (3 :: digits)
        | false => toBijectiveTernary_loop (num / 3) (Z.rem num 3 :: digits) }
    | right _ => digits }.
Proof.
  all: assert (num / 3 < num) by (apply Z.div_lt; lia).
  all: assert (0 <= num / 3) by (apply Z.div_pos; lia).
  all: lia.
Qed.

Definition toBijectiveTernary (n : Z) : list Z :=
  if n <=? 0 then [1] else toBijectiveTernary_loop n [].

Definition fromBijectiveTernary (digits : list Z) : Z :=
  fold_left (fun result d => result * 3 + d) digits 0.

Definition bijectiveTernaryString (n : Z) : string :=
  String.concat "" (map JS.String_of (toBijectiveTernary n)) ++ "₃ᵇ".

(** [getAspectTernarySignature], without its display fields [ternary] and
    [informationDensity]. *)
Definition getAspectTernarySignature (angle : Q) : AspectTernarySignature :=
  let phaseCount := JS.Math_round (angle / PHASE_SIZE) in
  let mod3 := Z.rem phaseCount 3 in
  {| s_phaseCount := phaseCount;
     s_bijectiveTernary := bijectiveTernaryString phaseCount;
     s_gf3 := mod3;
     s_resonance := RESONANCE_TYPES mod3;
     s_resonanceTriple :=
       {| triple_a := if mod3 =? 0 then 0 else if mod3 =? 1 then 1 else -1;
          triple_b := mod3;
          triple_c := if mod3 =? 0 then 3 else mod3 |} |}.

Definition mkOperation (a b : Z) (op : string) (r : Z) : OperationResult :=
  {| operand_a := a; operand_b := b; operation := op; result := r;
     o_representation := "A"; constantTime := true |}.

Definition ternaryAdd (a b : Z) : OperationResult :=
  let result := Z.rem ((a + 1) + (b + 1)) 3 - 1 in
  mkOperation a b "ternary_addition" result.

Definition ternaryMultiply (a b : Z) : OperationResult :=
  let result := Z.rem ((a + 1) * (b + 1)) 3 - 1 in
  mkOperation a b "ternary_multiplication" result.

Definition ternaryRotate (value steps : Z) : OperationResult :=
  let normalizedSteps := Z.rem (Z.rem steps 3 + 3) 3 in
  let rotated := Z.rem ((value + 1) + normalizedSteps) 3 in
  let result := rotated - 1 in
  mkOperation value steps "ternary_rotation" result.

Definition ternaryXor (a b : Z) : OperationResult :=
  let result :=
    if a =? b then 0
    else if a =? 0 then b
    else if b =? 0 then a
    else 0 in
  mkOperation a b "ternary_xor" result.

Definition ternaryNot (value : Z) : OperationResult :=
  mkOperation value 0 "ternary_not" (- value).

(** The object [GF3], one definition for each of its functions. *)
Definition GF3_add (a b : Z) : Z := Z.rem (a + b) 3.
Definition GF3_subtract (a b : Z) : Z := Z.rem (Z.rem (a - b) 3 + 3) 3.
Definition GF3_multiply (a b : Z) : Z := Z.rem (a * b) 3.
Definition GF3_negate (a : Z) : Z := Z.rem (3 - a) 3.

Definition calculateAspectResonance (aspectAngle : Q) : AspectResonance :=
  let phaseCount := JS.Math_round (aspectAngle / PHASE_SIZE) in
  let gf3Value := Z.rem phaseCount 3 in
  {| gf3Value := gf3Value;
     resonanceType := RESONANCE_TYPES gf3Value;
     cosmicFrequency :=
       if 0 <? phaseCount then (PRIME_CIRCLE / inject_Z phaseCount)%Q else PRIME_CIRCLE |}.

Definition calculateTernaryHarmony (angle1 angle2 : Q) : TernaryHarmony :=
  let prime1 := Conversions.tropicalToPrime angle1 in
  let prime2 := Conversions.tropicalToPrime angle2 in
  let diff := JS.rem (Qabs (prime1 - prime2)) PRIME_CIRCLE in
  let diff := if JS.ltb (PRIME_CIRCLE / 2) diff then (PRIME_CIRCLE - diff)%Q else diff in
  let phaseOffset := JS.Math_round (diff / PHASE_SIZE) in
  let mod3 := Z.rem phaseOffset 3 in
  {| difference := diff;
     phaseOffset := phaseOffset;
     harmonicResonance :=
       if mod3 =? 0 then "transcendent" else if mod3 =? 1 then "aligned" else "dynamic";
     ternarySignature := bijectiveTernaryString phaseOffset |}.

End Ternary.

(* ===================================================================== *)
(** * core/aspects.ts                                                     *)
(* ===================================================================== *)

Module Aspects.
Import Types Constants.

(** The separation both 364-degree loops start from: [diff]. *)
Definition primeSeparation (degree1 degree2 : Q) : Q :=
  let prime1 := Conversions.tropicalToPrime degree1 in
  let prime2 := Conversions.tropicalToPrime degree2 in
  let diff := JS.rem (Qabs (prime1 - prime2)) PRIME_CIRCLE in
  if JS.ltb (PRIME_CIRCLE / 2) diff then (PRIME_CIRCLE - diff)%Q else diff.

(** The [for ... of Object.entries(ASPECT_TYPES)] loop with its early
    return; running off the end falls through to [return null]. *)
Fixpoint scan364 (diff : Q) (entries : list (string * AspectConfig))
  : option AspectResult :=
  match entries with
  | [] => None
  | (type, config) :: rest =>
      let orbDiff := Qabs (diff - angle config) in
      if Qle_bool orbDiff (orb config) then
        Some {| type := type;
                exact := angle config;
                r_orb := orbDiff;
                r_harmonic := harmonic config;
                ternary :=
                  Some {| t_phaseCount := phaseCount config;
                          t_gf3 := gf3 config;
                          t_resonance := ternaryResonance config;
                          t_bijectiveNotation :=
                            Ternary.bijectiveTernaryString (phaseCount config) |} |}
      else scan364 diff rest
  end.

Fixpoint scan360 (diff : Q) (entries : list (string * (Q * Q * string * string * Z)))
  : option AspectResult :=
  match entries with
  | [] => None
  | (type, (angle, orb, _, _, _)) :: rest =>
      let orbDiff := Qabs (diff - angle) in
      if Qle_bool orbDiff orb then
        Some {| type := type; exact := angle; r_orb := orbDiff;
                r_harmonic := 0; ternary := None |}
      else scan360 diff rest
  end.

Definition calculateAspect (degree1 degree2 : Q) (use364 : bool)
  : option AspectResult :=
  if use364 then scan364 (primeSeparation degree1 degree2) ASPECT_TYPES
  else
    let diff := Qabs (JS.rem (degree1 - degree2 + 180) 360 - 180) in
    scan360 diff ASPECT_TYPES_360.

(** The inner loop of [calculateAllAspects364]: planet [p1] against the
    planets after it.  [planets] is modelled as the list of its entries,
    name and longitude, in the order of [Object.keys]. *)
Fixpoint aspectsWith (p1 : string) (long1 : Q) (later : list (string * Q))
  : list AspectData :=
  match later with
  | [] => []
  | (p2, long2) :: later' =>
      match calculateAspect long1 long2 true with
      | Some aspect =>
          {| planet1 := p1;
             planet2 := p2;
             aspect := type aspect;
             d_angle := primeSeparation long1 long2;
             exactAngle := exact aspect;
             d_orb := r_orb aspect;
             d_harmonic := if r_harmonic aspect =? 0 then 0 else r_harmonic aspect;
             d_ternary := ternary aspect |}
            :: aspectsWith p1 long1 later'
      | None => aspectsWith p1 long1 later'
      end
  end.

Fixpoint calculateAllAspects364 (planets : list (string * Q)) : list AspectData :=
  match planets with
  | [] => []
  | (p1, long1) :: later => aspectsWith p1 long1 later ++ calculateAllAspects364 later
  end.


(** The array [signs] of [detectStelliums]. *)
Definition signs : list string :=
  [ "Aries"; "Taurus"; "Gemini"; "Cancer"; "Leo"; "Virgo"; "Libra"; "Scorpio";
    "Sagittarius"; "Capricorn"; "Aquarius"; "Pisces" ].

(** The sign [detectStelliums] files a longitude under;
    [signs[signIndex] || 'Unknown'] takes a missing or empty name for
    ['Unknown']. *)
Definition signOfLongitude (long : Q) : string :=
  let normalizedDegree := Conversions.wrap long 360 in
  let signIndex := Qfloor (normalizedDegree / 30) in
  match JS.index signs signIndex with
  | Some sign => if String.eqb sign "" then "Unknown" else sign
  | None => "Unknown"
  end.

(** [if (!signGroups[sign]) signGroups[sign] = []; signGroups[sign].push(planet)]
    on [signGroups] as the list of its entries in the order of
    [Object.entries], the order in which the keys were first written. *)
Fixpoint pushPlanet (signGroups : list (string * list string)) (sign planet : string)
  : list (string * list string) :=
  match signGroups with
  | [] => [(sign, [planet])]
  | (key, planets) :: rest =>
      if String.eqb key sign then (key, (planets ++ [planet])%list) :: rest
      else (key, planets) :: pushPlanet rest sign planet
  end.

(** The first loop of [detectStelliums]. *)
Definition groupBySign (positions : list (string * Q)) : list (string * list string) :=
  fold_left (fun signGroups entry =>
               pushPlanet signGroups (signOfLongitude (snd entry)) (fst entry))
            positions [].

(** The second loop of [detectStelliums]. *)
Fixpoint crowded (signGroups : list (string * list string)) : list Stellium :=
  match signGroups with
  | [] => []
  | (sign, planets) :: rest =>
      if (3 <=? List.length planets)%nat
      then {| st_planets := planets; st_sign := sign |} :: crowded rest
      else crowded rest
  end.

Definition detectStelliums (positions : list (string * Q)) : list Stellium :=
  crowded (groupBySign positions).

End Aspects.

(* ===================================================================== *)
(** * calendar/thirteen-moon.ts (the April 1 calendar)                    *)
(* ===================================================================== *)

Module ThirteenMoon.
Import Types.

Definition THIRTEEN_MOON_NEW_YEAR_MONTH : Z := 3.
Definition THIRTEEN_MOON_NEW_YEAR_DAY : Z := 1.
Definition DAY_OUT_OF_TIME_MONTH : Z := 10.
Definition DAY_OUT_OF_TIME_DAY : Z := 11.
Definition GOLDEN_RATIO_DAY : Z := 224.
Definition MS_PER_DAY : Z := 86400000.

Definition THIRTEEN_MOON_WEEKDAYS : list string :=
  [ "Dali"; "Seli"; "Gamma"; "Kali"; "Alpha"; "Limi"; "Silio" ].

Definition mkMoon (n : Z) (nm sg tn ar : string) : MoonData :=
  {| number := n; name := nm; signature := sg; tone := tn; m_arc := ar |}.

Definition THIRTEEN_MOONS : list MoonData :=
  [ mkMoon 1 "Magnetic" "Red Dragon" "Purpose – Unify" "Pre-φ";
    mkMoon 2 "Lunar" "White Wind" "Challenge – Flow" "Pre-φ";
    mkMoon 3 "Electric" "Blue Night" "Service – Activate" "Pre-φ";
    mkMoon 4 "Self-Existing" "Yellow Seed" "Form – Measure" "Pre-φ";
    mkMoon 5 "Overtone" "Red Serpent" "Radiance – Empower" "Pre-φ";
    mkMoon 6 "Rhythmic" "White World-Bridger" "Equality – Organize" "Pre-φ";
    mkMoon 7 "Resonant" "Blue Hand" "Channel – Inspire" "Pre-φ";
    mkMoon 8 "Galactic" "Yellow Star" "Integrity – Harmonize" "Pre-φ";
    mkMoon 9 "Solar" "Red Moon" "Intention – Pulse" "Post-φ";
    mkMoon 10 "Planetary" "White Dog" "Manifestation – Perfect" "Post-φ";
    mkMoon 11 "Spectral" "Blue Monkey" "Liberation – Dissolve" "Post-φ";
    mkMoon 12 "Crystal" "Yellow Human" "Cooperation – Dedicate" "Post-φ";
    mkMoon 13 "Cosmic" "Red Skywalker" "Presence – Endure" "Post-φ" ].

Definition isLeapYear (year : Z) : bool :=
  ((Z.rem year 4 =? 0) && negb (Z.rem year 100 =? 0)) || (Z.rem year 400 =? 0).

(** The constants [toThirteenMoonDate] computes from its argument, one
    definition for each; [dateMs] is [date.getTime()]. *)

Definition thirteenMoonYear (dateMs : Z) : Z :=
  let gYear := JS.YearFromTime dateMs in
  let newYearThisYear :=
    JS.Date_UTC gYear THIRTEEN_MOON_NEW_YEAR_MONTH THIRTEEN_MOON_NEW_YEAR_DAY in
  if dateMs >=? newYearThisYear then gYear else gYear - 1.

Definition yearStartMs (dateMs : Z) : Z :=
  JS.Date_UTC (thirteenMoonYear dateMs)
    THIRTEEN_MOON_NEW_YEAR_MONTH THIRTEEN_MOON_NEW_YEAR_DAY.

Definition daysSinceNewYear (dateMs : Z) : Z :=
  (dateMs - yearStartMs dateMs) / MS_PER_DAY.

Definition dotMs (dateMs : Z) : Z :=
  JS.Date_UTC (thirteenMoonYear dateMs) DAY_OUT_OF_TIME_MONTH DAY_OUT_OF_TIME_DAY.

(** The constant [isDayOutOfTime]. *)
Definition onDayOutOfTime (dateMs : Z) : bool :=
  (dateMs >=? dotMs dateMs) && (dateMs <? dotMs dateMs + MS_PER_DAY).

Definition leapYearForCycle (dateMs : Z) : Z := thirteenMoonYear dateMs + 1.

Definition hasLeapDay (dateMs : Z) : bool := isLeapYear (leapYearForCycle dateMs).

Definition hunabKuMs (dateMs : Z) : Z :=
  if hasLeapDay dateMs then JS.Date_UTC (leapYearForCycle dateMs) 1 29 else 0.

(** The constant [isHunabKu]. *)
Definition onHunabKu (dateMs : Z) : bool :=
  hasLeapDay dateMs
  && (dateMs >=? hunabKuMs dateMs) && (dateMs <? hunabKuMs dateMs + MS_PER_DAY).

Definition totalCycles_of (dateMs : Z) : Z := thirteenMoonYear dateMs + 28000.

(** [adjustedDay] after its two conditional decrements, before the clamp. *)
Definition rawAdjustedDay (dateMs : Z) : Z :=
  let adjustedDay := daysSinceNewYear dateMs in
  let adjustedDay :=
    if dateMs >=? dotMs dateMs + MS_PER_DAY then adjustedDay - 1 else adjustedDay in
  if hasLeapDay dateMs && (dateMs >=? hunabKuMs dateMs + MS_PER_DAY)
  then adjustedDay - 1 else adjustedDay.

(** [adjustedDay] as the rest of the function reads it. *)
Definition adjustedDay (dateMs : Z) : Z :=
  Z.max 0 (Z.min (rawAdjustedDay dateMs) 363).

Definition toThirteenMoonDate (dateMs : Z) : JS.result ThirteenMoonDate :=
  let totalCycles := totalCycles_of dateMs in
  if onDayOutOfTime dateMs then
    JS.Ok {| moonNumber := 0;
             moonName := "Day Out of Time";
             dayOfMoon := 0;
             galacticSignature := "Green Central Sun";
             harmonicTone := "∞";
             arc := "φ-point";
             dayOfYear := GOLDEN_RATIO_DAY + 1;
             isDayOutOfTime := true;
             isHunabKu := false;
             weekday := Some "Day Out of Time";
             totalCycles := totalCycles |}
  else if onHunabKu dateMs then
    JS.Ok {| moonNumber := 0;
             moonName := "Hunab Ku Day";
             dayOfMoon := 0;
             galacticSignature := "Hunab Ku";
             harmonicTone := "0";
             arc := "Post-φ";
             dayOfYear := 0;
             isDayOutOfTime := false;
             isHunabKu := true;
             weekday := Some "Hunab Ku";
             totalCycles := totalCycles |}
  else
    let adjustedDay := adjustedDay dateMs in
    let moonIndex := adjustedDay / 28 in
    let dayInMoon := Z.rem adjustedDay 28 + 1 in
    let weekdayIndex := Z.rem adjustedDay 7 in
    let weekday := JS.index THIRTEEN_MOON_WEEKDAYS weekdayIndex in
    let safeMoonIndex := Z.max 0 (Z.min moonIndex 12) in
    match JS.index THIRTEEN_MOONS safeMoonIndex with
    | None => JS.Throw "TypeError: Cannot read properties of undefined"
    | Some moon =>
        JS.Ok {| moonNumber := number moon;
                 moonName := name moon;
                 dayOfMoon := dayInMoon;
                 galacticSignature := signature moon;
                 harmonicTone := tone moon;
                 arc := m_arc moon;
                 dayOfYear := adjustedDay + 1;
                 isDayOutOfTime := false;
                 isHunabKu := false;
                 weekday := weekday;
                 totalCycles := totalCycles |}
    end.

Definition getGalacticSignature (dateMs : Z) : JS.result GalacticSignature :=
  match toThirteenMoonDate dateMs with
  | JS.Throw e => JS.Throw e
  | JS.Ok moonDate =>
      JS.Ok {| gs_signature := galacticSignature moonDate;
               gs_tone := harmonicTone moonDate;
               gs_moonName := moonName moonDate;
               gs_arc := arc moonDate;
               gs_weekday := match weekday moonDate with Some w => w | None => "" end |}
  end.

Definition calculateMoonAspect (moon1 moon2 : Z) : MoonAspect :=
  let diff := Z.abs (moon1 - moon2) in
  let diff := if 6 <? diff then 13 - diff else diff in
  let gf3 := Z.rem diff 3 in
  {| phaseDifference := diff;
     ma_resonance :=
       match gf3 with
       | 0 => Some "Completion"
       | 1 => Some "Initiation"
       | 2 => Some "Manifestation"
       | _ => None
       end;
     ma_gf3 := gf3 |}.

End ThirteenMoon.

(* ===================================================================== *)
(** * calendar/space-time-bridge.ts                                       *)
(* ===================================================================== *)

Module Bridge.
Import Types Constants.

Definition mkBridge (s m r : string) : SignMoon :=
  {| b_sign := s; b_moon := m; b_resonance := r |}.

Definition SIGN_MOON_BRIDGE : list SignMoon :=
  [ mkBridge "Ares Prime" "Magnetic" "Initiation begins";
    mkBridge "Vectoris" "Lunar" "Polarity revealed";
    mkBridge "Solaris" "Electric" "Energy activated";
    mkBridge "Liegis" "Self-Existing" "Form crystallizes";
    mkBridge "Alphais" "Overtone" "Power radiates";
    mkBridge "Micronis" "Rhythmic" "Balance calibrates";
    mkBridge "Nexus" "Resonant" "Connection channels";
    mkBridge "Alchemis" "Galactic" "Transformation integrates";
    mkBridge "Onyxis" "Solar" "Intention pulses";
    mkBridge "Amalgamis" "Planetary" "Manifestation perfects";
    mkBridge "Quintis" "Spectral" "Liberation dissolves";
    mkBridge "Fallenis" "Crystal" "Cooperation dedicates";
    mkBridge "Optimis" "Cosmic" "Presence endures" ].

Definition getSpaceTimeBridge (primeDegree : Q) : JS.result SpaceTimeBridge :=
  let phaseIndex := Z.rem (Qfloor (primeDegree / PHASE_SIZE)) NUM_PHASES in
  match JS.index SIGN_MOON_BRIDGE phaseIndex, JS.index ThirteenMoon.THIRTEEN_MOONS phaseIndex with
  | Some bridge, Some moon =>
      JS.Ok {| sign := b_sign bridge;
               moon := b_moon bridge;
               resonance := b_resonance bridge;
               phaseNumber := phaseIndex + 1;
               bijectiveTernary := Ternary.bijectiveTernaryString (phaseIndex + 1);
               bridge_arc := m_arc moon |}
  | _, _ => JS.Throw "TypeError: Cannot read properties of undefined"
  end.

(** [getFullResonance], without the display string [resonanceMessage]. *)
Definition getFullResonance (primeDegree : Q) : JS.result FullResonance :=
  let phaseIndex := Z.rem (Qfloor (primeDegree / PHASE_SIZE)) NUM_PHASES in
  let degreeInPhase := JS.rem primeDegree PHASE_SIZE in
  let dayInMoon := Qfloor degreeInPhase + 1 in
  match getSpaceTimeBridge primeDegree with
  | JS.Throw e => JS.Throw e
  | JS.Ok spatial =>
      match JS.index ThirteenMoon.THIRTEEN_MOONS phaseIndex with
      | None => JS.Throw "TypeError: Cannot read properties of undefined"
      | Some moon =>
          JS.Ok {| spatial := spatial;
                   temporal :=
                     {| tp_moonNumber := number moon;
                        tp_moonName := name moon;
                        tp_galacticSignature := signature moon;
                        tp_harmonicTone := tone moon;
                        tp_arc := m_arc moon |};
                   unity :=
                     {| u_phaseNumber := phaseIndex + 1;
                        u_degreeInPhase := degreeInPhase;
                        u_dayInMoon := dayInMoon;
                        u_bijectiveTernary :=
                          Ternary.bijectiveTernaryString (phaseIndex + 1) |} |}
      end
  end.

End Bridge.

(* ===================================================================== *)
(** * Vocabulary of the statements                                        *)
(* ===================================================================== *)

Module Spec.
Import Types Constants.

(** The representation tags of [types.ts] and the digits each one holds. *)
Definition recognized (r : Representation) : Prop :=
  r = "A" \/ r = "B" \/ r = "C".

Definition validDigit (r : Representation) (v : Z) : Prop :=
  (r = "A" /\ -1 <= v <= 1) \/ (r = "B" /\ 0 <= v <= 2) \/ (r = "C" /\ 1 <= v <= 3).

(** Floored modulo: the result has the sign of the modulus. *)
Definition flooredMod (x m : Q) : Q := (x - m * inject_Z (Qfloor (x / m)))%Q.

(** The unified degree as the specification words it: scale by 364/360,
    reduce with floored modulo, snap a value within [EPSILON] of 364. *)
Definition toUnifiedDegree_spec (tropicalDegree : Q) : Q :=
  let scaled := flooredMod (tropicalDegree * (364 / 360)) 364 in
  if JS.ltb (Qabs (scaled - 364)) EPSILON then 0%Q else scaled.

(** What [tropicalToPrime] computes after its first line. *)
Definition snapPrime (normalized360 : Q) : Q :=
  let prime := (normalized360 * PRIME_CIRCLE / 360)%Q in
  let prime := if JS.ltb (Qabs (prime - PRIME_CIRCLE)) EPSILON then 0%Q else prime in
  Conversions.wrap prime PRIME_CIRCLE.

(** A separation lies within the orb of a catalog entry. *)
Definition inOrb (separation : Q) (config : AspectConfig) : Prop :=
  (Qabs (separation - angle config) <= orb config)%Q.

(** The three resonance labels, by class. *)
Definition resonanceLabel (class : Z) : string :=
  match class with
  | 0 => "Completion"
  | 1 => "Initiation"
  | _ => "Manifestation"
  end.

(** The record the 364-degree loop returns for the entry [(type, config)]. *)
Definition matchOf (diff : Q) (type : string) (config : AspectConfig) : AspectResult :=
  {| type := type;
     exact := angle config;
     r_orb := Qabs (diff - angle config);
     r_harmonic := harmonic config;
     ternary :=
       Some {| t_phaseCount := phaseCount config;
               t_gf3 := gf3 config;
               t_resonance := ternaryResonance config;
               t_bijectiveNotation :=
                 Ternary.bijectiveTernaryString (phaseCount config) |} |}.

(** The check each catalog entry is put to: its class is its phase count
    modulo 3, its label is the label of its class, and its phase count is
    [Math.round(angle / 28)], opposition apart, which declares 6 where
    [Math.round] gives 7. *)
Definition entry_ok (entry : string * AspectConfig) : bool :=
  let (type, config) := entry in
  (gf3 config =? phaseCount config mod 3)
  && String.eqb (ternaryResonance config) (resonanceLabel (gf3 config))
  && (if String.eqb type "opposition"
      then (phaseCount config =? 6) && (JS.Math_round (angle config / PHASE_SIZE) =? 7)
      else phaseCount config =? JS.Math_round (angle config / PHASE_SIZE)).

(** The time value of the day [k] days after April 1 of year [y], [ms]
    milliseconds after midnight. *)
Definition afterApril1 (y k ms : Z) : Z :=
  (JS.MakeDay y 3 1 + k) * ThirteenMoon.MS_PER_DAY + ms.

(** The record the last branch of [toThirteenMoonDate] builds. *)
Definition regularDate (dateMs : Z) (moon : MoonData) : ThirteenMoonDate :=
  {| moonNumber := number moon;
     moonName := name moon;
     dayOfMoon := Z.rem (ThirteenMoon.adjustedDay dateMs) 28 + 1;
     galacticSignature := signature moon;
     harmonicTone := tone moon;
     arc := m_arc moon;
     dayOfYear := ThirteenMoon.adjustedDay dateMs + 1;
     isDayOutOfTime := false;
     isHunabKu := false;
     weekday :=
       JS.index ThirteenMoon.THIRTEEN_MOON_WEEKDAYS
         (Z.rem (ThirteenMoon.adjustedDay dateMs) 7);
     totalCycles := ThirteenMoon.totalCycles_of dateMs |}.

Definition clamp (lo hi x : Z) : Z := Z.max lo (Z.min x hi).

(** The number of irregular days of the cycle whose date is on or before
    the input date. *)
Definition irregularDaysPassed (dateMs : Z) : Z :=
  (if ThirteenMoon.dotMs dateMs <=? dateMs then 1 else 0)
  + (if ThirteenMoon.hasLeapDay dateMs && (ThirteenMoon.hunabKuMs dateMs <=? dateMs)
     then 1 else 0).

(** The adjusted day as the specification words it. *)
Definition adjustedDay_spec (dateMs : Z) : Z :=
  clamp 0 363 (ThirteenMoon.daysSinceNewYear dateMs - irregularDaysPassed dateMs).

(** The digits of the three representations. *)
Definition isTritA (v : Z) : Prop := -1 <= v <= 1.
Definition isTritB (v : Z) : Prop := 0 <= v <= 2.
Definition isTritC (v : Z) : Prop := 1 <= v <= 3.

(** The value of a numeral of base 3, most significant digit first. *)
Definition base3 (digits : list Z) : Z :=
  fold_left (fun acc d => acc * 3 + d) digits 0.

(** The degree [getSalviSignFromPrimeDegree] resolves: the degree reduced
    to [[0, 364)], a value within [EPSILON] of 364 taken for 0. *)
Definition normalizedPrime (primeDegree : Q) : Q :=
  let n := flooredMod primeDegree 364 in
  if JS.ltb (Qabs (n - 364)) EPSILON then 0%Q else n.

(** The orb windows of two catalog entries have no degree in common. *)
Definition apart (c1 c2 : AspectConfig) : bool :=
  JS.ltb (angle c1 + orb c1) (angle c2 - orb c2)
  || JS.ltb (angle c2 + orb c2) (angle c1 - orb c1).

Fixpoint pairwiseApart (entries : list (string * AspectConfig)) : bool :=
  match entries with
  | [] => true
  | (_, c) :: rest => forallb (fun e => apart c (snd e)) rest && pairwiseApart rest
  end.

(** The entry [calculateAllAspects364] reports for a matched pair. *)
Definition aspectData (p1 p2 : string) (long1 long2 : Q) (r : AspectResult) : AspectData :=
  {| planet1 := p1;
     planet2 := p2;
     aspect := type r;
     d_angle := Aspects.primeSeparation long1 long2;
     exactAngle := exact r;
     d_orb := r_orb r;
     d_harmonic := if r_harmonic r =? 0 then 0 else r_harmonic r;
     d_ternary := ternary r |}.


(** The planets of [positions] that [detectStelliums] files under
    [sign], in the order of [positions]. *)
Definition planetsIn (sign : string) (positions : list (string * Q)) : list string :=
  map fst (filter (fun entry => String.eqb (Aspects.signOfLongitude (snd entry)) sign)
                  positions).

(** [signGroups[key]], as the first entry of that key. *)
Fixpoint entryOf (key : string) (signGroups : list (string * list string))
  : option (list string) :=
  match signGroups with
  | [] => None
  | (k, planets) :: rest => if String.eqb k key then Some planets else entryOf key rest
  end.

End Spec.

(* ===================================================================== *)
(** * The ternary algebra                                                 *)
(* ===================================================================== *)

Module TernaryProofs.
Import Types Ternary Spec.

Ltac digit_range :=
  repeat match goal with
         | H : _ \/ _ |- _ => destruct H
         | H : _ /\ _ |- _ => destruct H
         | H : String _ _ = String _ _ |- _ => discriminate H
         end.

(** C9.  [convertTrit] never throws on the tags A, B, C; it sends a digit
    valid in [X] to a digit valid in [Y]; converting back recovers the
    digit; and converting to the same representation leaves it as it is. *)
Theorem convertTrit_round_trip :
  forall (X Y : Representation) (v : Z),
    recognized X -> recognized Y -> validDigit X v ->
    exists there back,
      convertTrit v X Y = JS.Ok there /\
      validDigit Y (value (converted there)) /\
      convertTrit (value (converted there)) Y X = JS.Ok back /\
      value (converted back) = v /\
      (X = Y -> value (converted there) = v).
Proof.
  intros X Y v HX HY Hv.
  destruct HX as [-> | [-> | ->]], HY as [-> | [-> | ->]];
    unfold validDigit in Hv; digit_range;
    (do 2 eexists; cbn;
     repeat split; try reflexivity; unfold validDigit; cbn; try lia;
     try (intro E; discriminate E)).
  all: try (left; split; [reflexivity | lia]).
  all: try (right; left; split; [reflexivity | lia]).
  all: try (right; right; split; [reflexivity | lia]).
Qed.

Lemma convertTrit_round_trip_witness :
  exists there back,
    convertTrit 1 "A" "C" = JS.Ok there /\
    validDigit "C" (value (converted there)) /\
    convertTrit (value (converted there)) "C" "A" = JS.Ok back /\
    value (converted back) = 1 /\
    ("A" = "C" -> value (converted there) = 1).
Proof.
  apply (convertTrit_round_trip "A" "C" 1).
  - left. reflexivity.
  - right. right. reflexivity.
  - left. split; [reflexivity | lia].
Defined.

Lemma loop_step : forall num digits,
  toBijectiveTernary_loop num digits =
  if 0 <? num then
    if Z.rem num 3 =? 0 then toBijectiveTernary_loop (num / 3 - 1) (3 :: digits)
    else toBijectiveTernary_loop (num / 3) (Z.rem num 3 :: digits)
  else digits.
Proof.
  intros num digits. funelim (toBijectiveTernary_loop num digits).
  all: destruct (0 <? num) eqn:Hpos;
    [ apply Z.ltb_lt in Hpos | apply Z.ltb_ge in Hpos ]; try lia.
  all: try match goal with H : (Z.rem _ _ =? 0) = _ |- _ => rewrite H end.
  all: reflexivity.
Qed.

(** The loop puts in front of [digits] a numeral that denotes [num]. *)
Lemma loop_decodes : forall num, 0 <= num -> forall digits,
  fold_left (fun result d => result * 3 + d) (toBijectiveTernary_loop num digits) 0
  = fold_left (fun result d => result * 3 + d) digits num.
Proof.
  intros num Hnum. pattern num. apply Zlt_0_ind; [| exact Hnum].
  clear num Hnum. intros num IH Hnum digits.
  rewrite loop_step.
  destruct (0 <? num) eqn:Hpos.
  - apply Z.ltb_lt in Hpos.
    pose proof (Z.div_mod num 3 ltac:(lia)) as Hdm.
    pose proof (Z.mod_pos_bound num 3 ltac:(lia)) as Hb.
    rewrite Z.rem_mod_nonneg by lia.
    destruct (num mod 3 =? 0) eqn:Hr.
    + apply Z.eqb_eq in Hr. rewrite IH by lia. cbn. f_equal. lia.
    + apply Z.eqb_neq in Hr. rewrite IH by lia. cbn. f_equal. lia.
  - apply Z.ltb_ge in Hpos. f_equal. lia.
Qed.


End TernaryProofs.

(* ===================================================================== *)
(** * Degrees: remainders on the rationals                                *)
(* ===================================================================== *)

Module RationalFacts.
Import Types Constants Conversions Spec.
Local Open Scope Q_scope.

Lemma trunc_near : forall x : Q,
  (0 <= x -> inject_Z (JS.trunc x) <= x < inject_Z (JS.trunc x) + 1) /\
  (x < 0 -> x <= inject_Z (JS.trunc x) < x + 1).
Proof.
  intro x. unfold JS.trunc.
  destruct (Qle_bool 0 x) eqn:E.
  - apply Qle_bool_iff in E. split; [intros _ | intro H; exfalso; lra].
    pose proof (Qfloor_le x). pose proof (Qlt_floor x) as H1.
    rewrite inject_Z_plus in H1. change (inject_Z 1) with 1 in H1. split; lra.
  - assert (x < 0) as Hneg.
    { apply Qnot_le_lt. intro H. apply Qle_bool_iff in H. congruence. }
    split; [intro; exfalso; lra | intros _].
    pose proof (Qle_ceiling x). pose proof (Qceiling_lt x) as H1.
    assert (inject_Z (Qceiling x - 1) == inject_Z (Qceiling x) - 1) as H2
      by (unfold Z.sub; rewrite inject_Z_plus; reflexivity).
    rewrite H2 in H1. split; lra.
Qed.

Lemma rem_decompose : forall a b : Q, 0 < b ->
  a == JS.rem a b + b * inject_Z (JS.trunc (a / b)).
Proof. intros a b Hb. unfold JS.rem. ring. Qed.

Lemma rem_nonneg_range : forall a b : Q, 0 < b -> 0 <= a -> 0 <= JS.rem a b < b.
Proof.
  intros a b Hb Ha. unfold JS.rem.
  assert (0 <= a / b) as Hq by (apply Qle_shift_div_l; lra).
  destruct (trunc_near (a / b)) as [Hn _]. specialize (Hn Hq).
  assert (a == b * (a / b)) as Hab by (field; lra).
  set (t := inject_Z (JS.trunc (a / b))) in *. set (q := a / b) in *.
  split; nra.
Qed.

Lemma rem_range : forall a b : Q, 0 < b -> - b < JS.rem a b < b.
Proof.
  intros a b Hb. unfold JS.rem.
  destruct (trunc_near (a / b)) as [Hp Hn].
  assert (a == b * (a / b)) as Hab by (field; lra).
  set (t := inject_Z (JS.trunc (a / b))) in *. set (q := a / b) in *.
  destruct (Qlt_le_dec q 0) as [Hq | Hq].
  - specialize (Hn Hq). split; nra.
  - specialize (Hp Hq). split; nra.
Qed.

Lemma wrap_range : forall x m : Q, 0 < m -> 0 <= wrap x m < m.
Proof.
  intros x m Hm. unfold wrap. apply rem_nonneg_range; [exact Hm |].
  pose proof (rem_range x m Hm). lra.
Qed.

Lemma wrap_congruent : forall x m : Q, 0 < m ->
  exists k : Z, x == wrap x m + m * inject_Z k.
Proof.
  intros x m Hm. unfold wrap.
  exists (JS.trunc (x / m) + JS.trunc ((JS.rem x m + m) / m) - 1)%Z.
  pose proof (rem_decompose x m Hm) as H1.
  pose proof (rem_decompose (JS.rem x m + m) m Hm) as H2.
  unfold Z.sub. rewrite !inject_Z_plus.
  change (inject_Z (Z.opp 1)) with (-(1)).
  set (r1 := JS.rem x m) in *. set (r2 := JS.rem (r1 + m) m) in *.
  set (t1 := inject_Z (JS.trunc (x / m))) in *.
  set (t2 := inject_Z (JS.trunc ((r1 + m) / m))) in *.
  lra.
Qed.

(** Two values of [[0, m)] that differ by a multiple of [m] are equal. *)
Lemma residue_unique : forall (a b m : Q) (k : Z),
  0 < m -> 0 <= a < m -> 0 <= b < m -> a == b + m * inject_Z k -> a == b.
Proof.
  intros a b m k Hm Ha Hb E.
  assert (k = 0%Z) as ->.
  { assert (-1 < inject_Z k < 1) as [Hlo Hhi] by (split; nra).
    unfold Qlt in Hlo, Hhi. simpl in Hlo, Hhi. lia. }
  rewrite E. ring.
Qed.

Lemma flooredMod_range : forall x m : Q, 0 < m -> 0 <= flooredMod x m < m.
Proof.
  intros x m Hm. unfold flooredMod.
  pose proof (Qfloor_le (x / m)) as Hlo. pose proof (Qlt_floor (x / m)) as Hhi.
  rewrite inject_Z_plus in Hhi. change (inject_Z 1) with 1 in Hhi.
  assert (x == m * (x / m)) as Hx by (field; lra).
  set (q := x / m) in *. set (t := inject_Z (Qfloor q)) in *.
  split; nra.
Qed.

(** The idiom [((x % m) + m) % m] is the floored modulo. *)
Lemma wrap_flooredMod : forall x m : Q, 0 < m -> wrap x m == flooredMod x m.
Proof.
  intros x m Hm.
  destruct (wrap_congruent x m Hm) as [k Hk].
  apply (residue_unique _ _ m (Qfloor (x / m) - k)%Z Hm).
  - apply wrap_range, Hm.
  - apply flooredMod_range, Hm.
  - unfold flooredMod, Z.sub. rewrite inject_Z_plus, inject_Z_opp.
    set (w := wrap x m) in *. lra.
Qed.

Lemma wrap_periodic : forall (x m : Q) (k : Z), 0 < m ->
  wrap (x + m * inject_Z k) m == wrap x m.
Proof.
  intros x m k Hm.
  destruct (wrap_congruent x m Hm) as [k1 H1].
  destruct (wrap_congruent (x + m * inject_Z k) m Hm) as [k2 H2].
  apply (residue_unique _ _ m (k1 + k - k2)%Z Hm); try (apply wrap_range, Hm).
  unfold Z.sub. rewrite !inject_Z_plus, inject_Z_opp.
  set (w1 := wrap x m) in *. set (w2 := wrap (x + m * inject_Z k) m) in *.
  lra.
Qed.

Lemma wrap_small : forall x m : Q, 0 <= x < m -> wrap x m == x.
Proof.
  intros x m Hx. assert (0 < m) as Hm by lra.
  destruct (wrap_congruent x m Hm) as [k Hk].
  apply (residue_unique _ _ m (- k)%Z Hm); [apply wrap_range, Hm | exact Hx |].
  rewrite inject_Z_opp. set (w := wrap x m) in *. lra.
Qed.

Lemma trunc_compat : forall x y : Q, x == y -> JS.trunc x = JS.trunc y.
Proof.
  intros x y E. unfold JS.trunc.
  rewrite (Qleb_comp 0 0 (Qeq_refl 0) x y E), (Qfloor_comp x y E), (Qceiling_comp x y E).
  reflexivity.
Qed.

Lemma rem_compat : forall a a' b b' : Q, a == a' -> b == b' -> JS.rem a b == JS.rem a' b'.
Proof.
  intros a a' b b' Ea Eb. unfold JS.rem.
  assert (JS.trunc (a / b) = JS.trunc (a' / b')) as ->
    by (apply trunc_compat; rewrite Ea, Eb; reflexivity).
  rewrite Ea, Eb. reflexivity.
Qed.

Lemma wrap_compat : forall a a' m : Q, a == a' -> wrap a m == wrap a' m.
Proof.
  intros a a' m Ea. unfold wrap.
  apply rem_compat; [| reflexivity].
  rewrite (rem_compat a a' m m Ea (Qeq_refl m)). reflexivity.
Qed.

Lemma ltb_compat : forall a a' b b' : Q, a == a' -> b == b' -> JS.ltb a b = JS.ltb a' b'.
Proof.
  intros a a' b b' Ea Eb. unfold JS.ltb.
  rewrite (Qleb_comp b b' Eb a a' Ea). reflexivity.
Qed.

Lemma ltb_lt : forall x y : Q, JS.ltb x y = true <-> x < y.
Proof.
  intros x y. unfold JS.ltb. rewrite negb_true_iff.
  split.
  - intro H. apply Qnot_le_lt. intro Hle. apply Qle_bool_iff in Hle. congruence.
  - intro H. destruct (Qle_bool y x) eqn:E; [| reflexivity].
    apply Qle_bool_iff in E. lra.
Qed.

Lemma snapPrime_compat : forall n n' : Q, n == n' -> snapPrime n == snapPrime n'.
Proof.
  intros n n' E. unfold snapPrime.
  assert (JS.ltb (Qabs (n * PRIME_CIRCLE / 360 - PRIME_CIRCLE)) EPSILON
          = JS.ltb (Qabs (n' * PRIME_CIRCLE / 360 - PRIME_CIRCLE)) EPSILON) as ->
    by (apply ltb_compat; [rewrite E |]; reflexivity).
  destruct (JS.ltb _ _); [reflexivity |].
  apply wrap_compat. rewrite E. reflexivity.
Qed.

Lemma tropicalToPrime_snapPrime : forall d, tropicalToPrime d = snapPrime (wrap d 360).
Proof. reflexivity. Qed.

Lemma snapPrime_value : forall n : Q, 0 <= n < 360 ->
  snapPrime n ==
  (if JS.ltb (Qabs (n * (364 / 360) - 364)) EPSILON then 0 else n * (364 / 360)).
Proof.
  intros n Hn. unfold snapPrime, PRIME_CIRCLE.
  assert (n * 364 / 360 == n * (364 / 360)) as Hscale by field.
  assert (JS.ltb (Qabs (n * 364 / 360 - 364)) EPSILON
          = JS.ltb (Qabs (n * (364 / 360) - 364)) EPSILON) as ->
    by (apply ltb_compat; [rewrite Hscale |]; reflexivity).
  destruct (JS.ltb (Qabs (n * (364 / 360) - 364)) EPSILON).
  - apply wrap_small. lra.
  - rewrite <- Hscale. apply wrap_small.
    assert (n * 364 / 360 == n * (91 # 90)) as -> by field. lra.
Qed.

(** [tropicalToPrime] lands in [[0, 364 - EPSILON]]. *)
Lemma tropicalToPrime_bounds : forall d : Q,
  0 <= tropicalToPrime d < 364 /\ tropicalToPrime d <= 364 - EPSILON.
Proof.
  intro d.
  assert (0 < 360) as H360 by lra.
  pose proof (wrap_range d 360 H360) as Hn.
  pose proof (snapPrime_value (wrap d 360) Hn) as Hv.
  rewrite <- tropicalToPrime_snapPrime in Hv.
  assert (wrap d 360 * (364 / 360) == wrap d 360 * (91 # 90)) as Hq by field.
  repeat split.
  - rewrite Hv. destruct (JS.ltb _ _); lra.
  - rewrite Hv. destruct (JS.ltb _ _); lra.
  - rewrite Hv. destruct (JS.ltb _ _) eqn:E; unfold EPSILON in *; [lra |].
    assert (~ Qabs (wrap d 360 * (364 / 360) - 364) < 1 # 1000000000) as Hge
      by (intro Hlt; apply ltb_lt in Hlt; congruence).
    apply Qnot_lt_le in Hge. revert Hge. apply Qabs_case; intros; lra.
Qed.

End RationalFacts.

Module ConversionsProofs.
Import Types Constants Conversions Spec RationalFacts.
Local Open Scope Q_scope.


Lemma house_index_range : forall r : Q, 0 <= r < 364 ->
  (0 <= Qfloor (r / PHASE_SIZE) <= 12)%Z.
Proof.
  intros r Hr. unfold PHASE_SIZE.
  assert (r / 28 == r * (1 # 28)) as Hdiv by field.
  pose proof (Qfloor_le (r / 28)) as Hfl.
  set (x := r / 28) in *.
  split.
  - change 0%Z with (Qfloor 0). apply Qfloor_resp_le. lra.
  - assert (inject_Z (Qfloor x) < inject_Z 13) as Hlt
      by (change (inject_Z 13) with 13; lra).
    rewrite <- Zlt_Qlt in Hlt. lia.
Qed.

(** The house a degree falls in when the table has a first cusp. *)
Lemma getHouseFromDegree_first_cusp : forall degree cusp0 rest,
  let h := (Qfloor (wrap (tropicalToPrime degree - tropicalToPrime cusp0) PRIME_CIRCLE
                    / PHASE_SIZE) + 1)%Z in
  house (getHouseFromDegree degree (cusp0 :: rest)) = Some h /\
  alsoIn13th (getHouseFromDegree degree (cusp0 :: rest)) = (h =? 13)%Z /\
  (1 <= h <= 13)%Z.
Proof.
  intros degree cusp0 rest h.
  assert (0 < 364) as H364 by lra.
  pose proof (house_index_range _
    (wrap_range (tropicalToPrime degree - tropicalToPrime cusp0) 364 H364)) as Hidx.
  fold PRIME_CIRCLE in Hidx.
  unfold getHouseFromDegree. cbn [nth_error house alsoIn13th].
  fold h. unfold NUM_PHASES.
  set (q := Qfloor _) in *.
  replace (q >=? 13)%Z with false
    by (symmetry; rewrite Z.geb_leb; apply Z.leb_gt; lia).
  repeat split; unfold h; lia.
Qed.

(** C3, as the code has it.  For a cusp table of fewer than 13 entries
    [isIn13thHouse] answers [false], and [getHouseFromDegree], which never
    looks at the length, answers as for any table: from the first cusp
    alone the house of 1..13 the degree falls in, the 13th included; only
    an empty table leaves the house NaN. *)
Theorem short_cusp_table_is_answered : forall (degree : Q) (houseCusps : list Q),
  (List.length houseCusps < 13)%nat ->
  isIn13thHouse degree houseCusps = false /\
  match houseCusps with
  | [] =>
      house (getHouseFromDegree degree houseCusps) = None /\
      alsoIn13th (getHouseFromDegree degree houseCusps) = false
  | cusp0 :: _ =>
      let h := (Qfloor (wrap (tropicalToPrime degree - tropicalToPrime cusp0) PRIME_CIRCLE
                        / PHASE_SIZE) + 1)%Z in
      house (getHouseFromDegree degree houseCusps) = Some h /\
      alsoIn13th (getHouseFromDegree degree houseCusps) = (h =? 13)%Z /\
      (1 <= h <= 13)%Z
  end.
Proof.
  intros degree houseCusps Hlen. split.
  - unfold isIn13thHouse, NUM_PHASES.
    replace (Z.of_nat (List.length houseCusps) <? 13)%Z with true
      by (symmetry; apply Z.ltb_lt; lia).
    reflexivity.
  - destruct houseCusps as [| cusp0 rest].
    + split; reflexivity.
    + apply getHouseFromDegree_first_cusp.
Qed.

Lemma short_cusp_table_is_answered_witness :
  isIn13thHouse 350 [0; 28] = false /\
  house (getHouseFromDegree 350 [0; 28])
  = Some (Qfloor (wrap (tropicalToPrime 350 - tropicalToPrime 0) PRIME_CIRCLE
                  / PHASE_SIZE) + 1)%Z.
Proof.
  pose proof (short_cusp_table_is_answered 350 [0; 28]) as H.
  cbv zeta in H. cbv beta iota in H.
  split; apply H; cbn; lia.
Defined.

(** C3 as stated fails: a table of two cusps gets ordinary answers, with
    no error and no third value, and the two functions disagree on it. *)
Lemma short_cusp_table_counterexample :
  isIn13thHouse 350 [0; 28] = false /\
  house (getHouseFromDegree 350 [0; 28]) = Some 13%Z /\
  alsoIn13th (getHouseFromDegree 350 [0; 28]) = true /\
  houseName (getHouseFromDegree 350 [0; 28]) = "Optimus Prime".
Proof. vm_compute. repeat split. Qed.

End ConversionsProofs.

(* ===================================================================== *)
(** * The aspect matcher                                                  *)
(* ===================================================================== *)

Module AspectsProofs.
Import Types Constants Conversions Aspects Spec.

Lemma calculateAspect_branches : forall degree1 degree2 use364,
  calculateAspect degree1 degree2 use364 =
  if use364 then scan364 (primeSeparation degree1 degree2) ASPECT_TYPES
  else scan360 (Qabs (JS.rem (degree1 - degree2 + 180) 360 - 180)) ASPECT_TYPES_360.
Proof. intros. destruct use364; reflexivity. Qed.

(** The loop returns the first entry in whose orb the separation lies,
    and nothing when there is none. *)
Lemma scan364_first_match : forall diff entries,
  match scan364 diff entries with
  | Some r =>
      exists i type config,
        nth_error entries i = Some (type, config) /\
        inOrb diff config /\
        r = matchOf diff type config /\
        forall j type' config', (j < i)%nat ->
          nth_error entries j = Some (type', config') -> ~ inOrb diff config'
  | None => forall type config, In (type, config) entries -> ~ inOrb diff config
  end.
Proof.
  intros diff entries. induction entries as [| [type config] rest IH]; cbn [scan364].
  - intros type config [].
  - destruct (Qle_bool (Qabs (diff - angle config)) (orb config)) eqn:E.
    + exists 0%nat, type, config. apply Qle_bool_iff in E.
      repeat split; [exact E |]. intros j ? ? Hj. inversion Hj.
    + assert (~ inOrb diff config) as Hout.
      { intro H. apply Qle_bool_iff in H. congruence. }
      destruct (scan364 diff rest) as [r |].
      * destruct IH as (i & type' & config' & Hnth & Hin & Hr & Hbefore).
        exists (S i), type', config'. repeat split; try assumption.
        intros [| j] t c Hj Hnj; cbn in Hnj.
        -- injection Hnj as <- <-. exact Hout.
        -- apply (Hbefore j t c); [lia | exact Hnj].
      * intros t c [Heq | Hin]; [injection Heq as <- <-; exact Hout |].
        apply IH with t. exact Hin.
Qed.

Lemma ASPECT_TYPES_entries_ok : forallb entry_ok ASPECT_TYPES = true.
Proof. vm_compute. reflexivity. Qed.

(** C8.  The catalog is declared in the order conjunction, opposition,
    trine, square, sextile, quintile, septile, novile, tredecile,
    quincunx, tredecile being the 28-degree aspect; [calculateAspect] in
    the 364-degree system returns the first entry of that order whose orb
    holds the separation of the two positions, and null exactly when no
    entry does. *)
Theorem calculateAspect_first_in_catalog_order :
  map fst ASPECT_TYPES =
    [ "conjunction"; "opposition"; "trine"; "square"; "sextile"; "quintile";
      "septile"; "novile"; "tredecile"; "quincunx" ] /\
  (exists config, In ("tredecile", config) ASPECT_TYPES /\ angle config = 28%Q) /\
  forall degree1 degree2 : Q,
    let separation := primeSeparation degree1 degree2 in
    match calculateAspect degree1 degree2 true with
    | Some r =>
        exists i config,
          nth_error ASPECT_TYPES i = Some (type r, config) /\
          inOrb separation config /\
          r = matchOf separation (type r) config /\
          forall j type' config', (j < i)%nat ->
            nth_error ASPECT_TYPES j = Some (type', config') ->
            ~ inOrb separation config'
    | None =>
        forall type config, In (type, config) ASPECT_TYPES -> ~ inOrb separation config
    end.
Proof.
  split; [reflexivity |]. split.
  - eexists. split; [cbn; do 8 right; left; reflexivity | reflexivity].
  - intros degree1 degree2 separation. rewrite calculateAspect_branches.
    pose proof (scan364_first_match separation ASPECT_TYPES) as H.
    fold separation.
    destruct (scan364 separation ASPECT_TYPES) as [r |]; [| exact H].
    destruct H as (i & type & config & Hnth & Hin & Hr & Hbefore).
    exists i, config. rewrite Hr. repeat split; assumption.
Qed.

Lemma calculateAspect_364 : forall (degree1 degree2 : Q) (r : AspectResult),
  calculateAspect degree1 degree2 true = Some r ->
  exists type config,
    In (type, config) ASPECT_TYPES /\
    r = matchOf (primeSeparation degree1 degree2) type config.
Proof.
  intros degree1 degree2 r Hr. rewrite calculateAspect_branches in Hr.
  pose proof (scan364_first_match (primeSeparation degree1 degree2) ASPECT_TYPES) as H.
  rewrite Hr in H. destruct H as (i & type & config & Hnth & _ & -> & _).
  apply nth_error_In in Hnth. eauto.
Qed.

(** C1, as the code has it.  A match reports the phase count its catalog
    entry declares; its class is that count modulo 3 and its label the
    label of the class (0 Completion, 1 Initiation, 2 Manifestation); the
    count is [Math.round(angle / 28)] for every entry but opposition,
    which declares 6 where [Math.round(182 / 28)] is 7. *)
Theorem aspect_ternary_from_catalog : forall (degree1 degree2 : Q) (r : AspectResult),
  calculateAspect degree1 degree2 true = Some r ->
  exists config t,
    In (type r, config) ASPECT_TYPES /\
    exact r = angle config /\
    ternary r = Some t /\
    t_phaseCount t = phaseCount config /\
    t_gf3 t = t_phaseCount t mod 3 /\
    t_resonance t = resonanceLabel (t_gf3 t) /\
    (type r <> "opposition" ->
       t_phaseCount t = JS.Math_round (exact r / PHASE_SIZE)) /\
    (type r = "opposition" ->
       t_phaseCount t = 6 /\ JS.Math_round (exact r / PHASE_SIZE) = 7).
Proof.
  intros degree1 degree2 r Hr.
  destruct (calculateAspect_364 _ _ _ Hr) as (type & config & Hin & ->).
  pose proof ASPECT_TYPES_entries_ok as Hok. rewrite forallb_forall in Hok.
  specialize (Hok _ Hin). cbn [entry_ok] in Hok.
  apply andb_prop in Hok. destruct Hok as [Hok Hround].
  apply andb_prop in Hok. destruct Hok as [Hgf Hlabel].
  apply Z.eqb_eq in Hgf. apply String.eqb_eq in Hlabel.
  exists config. eexists.
  split; [exact Hin |]. split; [reflexivity |]. split; [reflexivity |].
  split; [reflexivity |]. split; [exact Hgf |]. split; [exact Hlabel |].
  change (Types.type (matchOf (primeSeparation degree1 degree2) type config)) with type.
  change (exact (matchOf (primeSeparation degree1 degree2) type config))
    with (angle config).
  change (t_phaseCount _) with (phaseCount config).
  split.
  - intro Hne. apply String.eqb_neq in Hne. rewrite Hne in Hround.
    apply Z.eqb_eq in Hround. exact Hround.
  - intro He. apply String.eqb_eq in He. rewrite He in Hround.
    apply andb_prop in Hround. destruct Hround as [H6 H7].
    apply Z.eqb_eq in H6, H7. split; assumption.
Qed.

Lemma aspect_ternary_from_catalog_witness :
  exists r config t,
    calculateAspect 0 120 true = Some r /\
    In (type r, config) ASPECT_TYPES /\
    ternary r = Some t /\
    t_phaseCount t = phaseCount config /\
    t_gf3 t = t_phaseCount t mod 3 /\
    t_resonance t = resonanceLabel (t_gf3 t).
Proof.
  assert (exists r, calculateAspect 0 120 true = Some r) as [r Hr]
    by (eexists; vm_compute; reflexivity).
  destruct (aspect_ternary_from_catalog _ _ _ Hr)
    as (config & t & Hin & _ & Ht & Hp & Hg & Hl & _).
  exists r, config, t. repeat split; assumption.
Defined.

(** C1 as stated fails on opposition: the match of two positions half a
    circle apart reports 6 phases, and [Math.round(182 / 28)] is 7. *)
Lemma opposition_phaseCount_counterexample :
  exists r t,
    calculateAspect 0 180 true = Some r /\
    ternary r = Some t /\
    type r = "opposition" /\
    t_phaseCount t = 6 /\
    JS.Math_round (exact r / PHASE_SIZE) = 7 /\
    t_phaseCount t <> JS.Math_round (exact r / PHASE_SIZE).
Proof.
  do 2 eexists. split; [vm_compute; reflexivity |].
  split; [reflexivity |]. vm_compute. repeat split. discriminate.
Qed.

End AspectsProofs.

(* ===================================================================== *)
(** * Time values and civil dates                                         *)
(* ===================================================================== *)

Module DateFacts.

Ltac div_lia := Z.to_euclidean_division_equations; lia.

Lemma DayFromYear_step : forall y,
  JS.DayFromYear (y + 1) = JS.DayFromYear y + JS.DaysInYear y.
Proof.
  intro y. unfold JS.DayFromYear, JS.DaysInYear.
  destruct (y mod 4 =? 0) eqn:E4; destruct (y mod 100 =? 0) eqn:E100;
    destruct (y mod 400 =? 0) eqn:E400; cbn [negb];
    rewrite ?Z.eqb_eq, ?Z.eqb_neq in *; div_lia.
Qed.

Lemma DaysInYear_range : forall y, 365 <= JS.DaysInYear y <= 366.
Proof.
  intro y. unfold JS.DaysInYear.
  destruct (y mod 4 =? 0), (y mod 100 =? 0), (y mod 400 =? 0); cbn; lia.
Qed.

Lemma InLeapYear_DaysInYear : forall y, JS.DaysInYear y = 365 + JS.InLeapYear y.
Proof.
  intro y. unfold JS.InLeapYear. pose proof (DaysInYear_range y).
  destruct (JS.DaysInYear y =? 366) eqn:E;
    rewrite ?Z.eqb_eq, ?Z.eqb_neq in *; lia.
Qed.

Lemma InLeapYear_range : forall y, 0 <= JS.InLeapYear y <= 1.
Proof. intro y. unfold JS.InLeapYear. destruct (_ =? _); lia. Qed.

Lemma DayFromYear_lt : forall y1 y2, y1 < y2 -> JS.DayFromYear y1 < JS.DayFromYear y2.
Proof. intros y1 y2 H. unfold JS.DayFromYear. div_lia. Qed.

(** [YearFromTime t] is the year whose days hold the day of [t]. *)
Lemma YearFromTime_spec : forall t,
  JS.DayFromYear (JS.YearFromTime t) <= JS.Day t < JS.DayFromYear (JS.YearFromTime t + 1).
Proof.
  intro t. unfold JS.YearFromTime. generalize (JS.Day t) as d. intro d.
  set (y0 := 1970 + 400 * d / 146097).
  assert (Hlo : JS.DayFromYear (y0 - 1) <= d) by (unfold JS.DayFromYear, y0; div_lia).
  assert (Hhi : d < JS.DayFromYear (y0 + 2)) by (unfold JS.DayFromYear, y0; div_lia).
  destruct (JS.DayFromYear (y0 + 1) <=? d) eqn:E1.
  - apply Z.leb_le in E1. replace (y0 + 1 + 1) with (y0 + 2) by lia. lia.
  - apply Z.leb_gt in E1. destruct (JS.DayFromYear y0 <=? d) eqn:E0.
    + apply Z.leb_le in E0. lia.
    + apply Z.leb_gt in E0. replace (y0 - 1 + 1) with y0 by lia. lia.
Qed.

Lemma YearFromTime_unique : forall t y,
  JS.DayFromYear y <= JS.Day t < JS.DayFromYear (y + 1) -> JS.YearFromTime t = y.
Proof.
  intros t y H. pose proof (YearFromTime_spec t) as S.
  destruct (Z.lt_trichotomy (JS.YearFromTime t) y) as [Hlt | [Heq | Hgt]];
    [| exact Heq |].
  - assert (JS.YearFromTime t + 1 <= y) as Hle by lia.
    apply Zle_lt_or_eq in Hle. destruct Hle as [Hl | He].
    + pose proof (DayFromYear_lt _ _ Hl). lia.
    + rewrite He in S. lia.
  - assert (y + 1 <= JS.YearFromTime t) as Hle by lia.
    apply Zle_lt_or_eq in Hle. destruct Hle as [Hl | He].
    + pose proof (DayFromYear_lt _ _ Hl). lia.
    + rewrite <- He in S. lia.
Qed.

Lemma MakeFullYear_outside : forall y, ~ (0 <= y <= 99) -> JS.MakeFullYear y = y.
Proof.
  intros y H. unfold JS.MakeFullYear.
  destruct (0 <=? y) eqn:E1; destruct (y <=? 99) eqn:E2; cbn; try reflexivity.
  apply Z.leb_le in E1, E2. lia.
Qed.

Lemma MakeFullYear_inside : forall y, 0 <= y <= 99 -> JS.MakeFullYear y = 1900 + y.
Proof.
  intros y H. unfold JS.MakeFullYear.
  replace (0 <=? y) with true by (symmetry; apply Z.leb_le; lia).
  replace (y <=? 99) with true by (symmetry; apply Z.leb_le; lia).
  reflexivity.
Qed.

Lemma MakeDay_april1 : forall y,
  JS.MakeDay y 3 1 = JS.DayFromYear y + 90 + JS.InLeapYear y.
Proof.
  intro y. unfold JS.MakeDay. change (3 / 12) with 0. change (3 mod 12) with 3.
  rewrite Z.add_0_r. cbn [JS.monthStart]. lia.
Qed.

Lemma MakeDay_november11 : forall y,
  JS.MakeDay y 10 11 = JS.DayFromYear y + 314 + JS.InLeapYear y.
Proof.
  intro y. unfold JS.MakeDay. change (10 / 12) with 0. change (10 mod 12) with 10.
  rewrite Z.add_0_r. cbn [JS.monthStart]. lia.
Qed.

Lemma MakeDay_february29 : forall y, JS.MakeDay y 1 29 = JS.DayFromYear y + 59.
Proof.
  intro y. unfold JS.MakeDay. change (1 / 12) with 0. change (1 mod 12) with 1.
  rewrite Z.add_0_r. cbn [JS.monthStart]. lia.
Qed.

End DateFacts.

(* ===================================================================== *)
(** * The thirteen-moon calendar                                          *)
(* ===================================================================== *)

Module ThirteenMoonProofs.
Import Types ThirteenMoon Spec DateFacts.

Lemma isLeapYear_InLeapYear : forall y, isLeapYear y = (JS.InLeapYear y =? 1).
Proof.
  intro y. unfold isLeapYear, JS.InLeapYear, JS.DaysInYear.
  assert (forall m, 0 < m -> (Z.rem y m =? 0) = (y mod m =? 0)) as Hrem.
  { intros m Hm. destruct (Z.rem y m =? 0) eqn:E1; destruct (y mod m =? 0) eqn:E2;
      rewrite ?Z.eqb_eq, ?Z.eqb_neq in *; try reflexivity; exfalso.
    - apply E2. apply Z.rem_divide in E1; [| lia]. apply Z.mod_divide; [lia | exact E1].
    - apply E1. apply Z.mod_divide in E2; [| lia]. apply Z.rem_divide; [lia | exact E2]. }
  rewrite !Hrem by lia.
  destruct (y mod 4 =? 0) eqn:E4; destruct (y mod 100 =? 0) eqn:E100;
    destruct (y mod 400 =? 0) eqn:E400; try reflexivity;
    rewrite ?Z.eqb_eq, ?Z.eqb_neq in *; exfalso; div_lia.
Qed.

(** From April 1 of a year outside 0..99 to the eve of the next April 1
    the thirteen-moon year is that year. *)
Lemma thirteenMoonYear_in_cycle : forall y t,
  ~ (0 <= y <= 99) ->
  JS.MakeDay y 3 1 * MS_PER_DAY <= t < JS.MakeDay (y + 1) 3 1 * MS_PER_DAY ->
  thirteenMoonYear t = y.
Proof.
  intros y t Hy Ht. unfold thirteenMoonYear, THIRTEEN_MOON_NEW_YEAR_MONTH,
    THIRTEEN_MOON_NEW_YEAR_DAY, JS.Date_UTC.
  rewrite !MakeDay_april1 in Ht.
  pose proof (DayFromYear_step y) as Hs1. pose proof (DayFromYear_step (y + 1)) as Hs2.
  rewrite InLeapYear_DaysInYear in Hs1, Hs2.
  pose proof (InLeapYear_range y). pose proof (InLeapYear_range (y + 1)).
  assert (JS.DayFromYear y + 90 + JS.InLeapYear y <= JS.Day t
          < JS.DayFromYear (y + 1) + 90 + JS.InLeapYear (y + 1)) as Hd.
  { unfold JS.Day, MS_PER_DAY, JS.msPerDay in *. div_lia. }
  destruct (Z_lt_dec (JS.Day t) (JS.DayFromYear (y + 1))) as [Hthis | Hnext].
  - rewrite (YearFromTime_unique t y) by lia.
    rewrite MakeFullYear_outside by exact Hy. rewrite MakeDay_april1.
    replace (t >=? _) with true; [reflexivity |].
    symmetry. apply Z.geb_le. unfold MS_PER_DAY, JS.msPerDay in *. lia.
  - rewrite (YearFromTime_unique t (y + 1))
      by (replace (y + 1 + 1) with (y + 2) in * by lia; lia).
    replace (t >=? _) with false; [lia |].
    symmetry. rewrite Z.geb_leb. apply Z.leb_gt.
    destruct (Z.eq_dec y (-1)) as [-> | Hne].
    + change (JS.MakeFullYear (-1 + 1)) with 1900. rewrite MakeDay_april1.
      change (-1 + 1) with 0 in *.
      let v := eval vm_compute in (JS.DayFromYear 0) in
        change (JS.DayFromYear 0) with v in *.
      let v := eval vm_compute in (JS.DayFromYear 1900) in
        change (JS.DayFromYear 1900) with v.
      pose proof (InLeapYear_range 1900).
      unfold MS_PER_DAY, JS.msPerDay in *. lia.
    + rewrite MakeFullYear_outside by lia. rewrite MakeDay_april1.
      unfold MS_PER_DAY, JS.msPerDay in *. lia.
Qed.

Lemma adjustedDay_range : forall t, 0 <= adjustedDay t <= 363.
Proof. intro t. unfold adjustedDay. lia. Qed.

Lemma THIRTEEN_MOONS_index : forall i, 0 <= i <= 12 ->
  exists moon, JS.index THIRTEEN_MOONS i = Some moon /\ number moon = i + 1.
Proof.
  intros i Hi.
  assert (i = 0 \/ i = 1 \/ i = 2 \/ i = 3 \/ i = 4 \/ i = 5 \/ i = 6 \/ i = 7
          \/ i = 8 \/ i = 9 \/ i = 10 \/ i = 11 \/ i = 12) as Hc by lia.
  repeat match goal with H : _ \/ _ |- _ => destruct H end; subst i;
    eexists; split; reflexivity.
Qed.

Lemma THIRTEEN_MOON_WEEKDAYS_index : forall i, 0 <= i <= 6 ->
  JS.index THIRTEEN_MOON_WEEKDAYS i = nth_error THIRTEEN_MOON_WEEKDAYS (Z.to_nat i).
Proof.
  intros i Hi. unfold JS.index.
  replace (i <? 0) with false by (symmetry; apply Z.ltb_ge; lia).
  reflexivity.
Qed.

(** Off the two irregular days the function returns the record of its
    last branch, for the moon at index [adjustedDay / 28]. *)
Lemma toThirteenMoonDate_regular : forall t,
  onDayOutOfTime t = false -> onHunabKu t = false ->
  exists moon,
    JS.index THIRTEEN_MOONS (adjustedDay t / 28) = Some moon /\
    number moon = adjustedDay t / 28 + 1 /\
    toThirteenMoonDate t = JS.Ok (regularDate t moon).
Proof.
  intros t Hdot Hhk. unfold toThirteenMoonDate. rewrite Hdot, Hhk.
  pose proof (adjustedDay_range t) as Ha.
  assert (0 <= adjustedDay t / 28 <= 12) as Hm by div_lia.
  replace (Z.max 0 (Z.min (adjustedDay t / 28) 12)) with (adjustedDay t / 28) by lia.
  destruct (THIRTEEN_MOONS_index _ Hm) as [moon [Hidx Hnum]].
  exists moon. rewrite Hidx. repeat split; [exact Hnum].
Qed.

(** The constants of the function on a day of April 1 .. February 28 of
    a cycle that starts in a year outside 0..99. *)
Lemma cycle_facts : forall y k ms,
  ~ (0 <= y <= 99) -> 0 <= ms < MS_PER_DAY -> 0 <= k <= 333 ->
  let t := afterApril1 y k ms in
  thirteenMoonYear t = y /\
  daysSinceNewYear t = k /\
  dotMs t = (JS.MakeDay y 3 1 + 224) * MS_PER_DAY /\
  (hasLeapDay t = true -> t < hunabKuMs t).
Proof.
  intros y k ms Hy Hms Hk t.
  assert (thirteenMoonYear t = y) as Hyear.
  { apply thirteenMoonYear_in_cycle; [exact Hy |]. unfold t, afterApril1.
    rewrite !MakeDay_april1. pose proof (DayFromYear_step y) as Hs.
    rewrite InLeapYear_DaysInYear in Hs.
    pose proof (InLeapYear_range y). pose proof (InLeapYear_range (y + 1)).
    unfold MS_PER_DAY in *. nia. }
  repeat split.
  - exact Hyear.
  - unfold daysSinceNewYear, yearStartMs. rewrite Hyear.
    unfold JS.Date_UTC, THIRTEEN_MOON_NEW_YEAR_MONTH, THIRTEEN_MOON_NEW_YEAR_DAY.
    rewrite MakeFullYear_outside by exact Hy. unfold t, afterApril1, JS.msPerDay.
    unfold MS_PER_DAY in *. div_lia.
  - unfold dotMs. rewrite Hyear.
    unfold JS.Date_UTC, DAY_OUT_OF_TIME_MONTH, DAY_OUT_OF_TIME_DAY.
    rewrite MakeFullYear_outside by exact Hy.
    rewrite MakeDay_november11, MakeDay_april1. unfold JS.msPerDay, MS_PER_DAY. lia.
  - intro Hleap. unfold hunabKuMs. rewrite Hleap. unfold leapYearForCycle.
    rewrite Hyear. unfold JS.Date_UTC, t, afterApril1.
    rewrite MakeDay_april1. pose proof (DayFromYear_step y) as Hs.
    rewrite InLeapYear_DaysInYear in Hs. pose proof (InLeapYear_range y).
    destruct (Z.eq_dec y (-1)) as [-> | Hne].
    + change (JS.MakeFullYear (-1 + 1)) with 1900.
      rewrite MakeDay_february29.
      let v := eval vm_compute in (JS.DayFromYear (-1)) in
        change (JS.DayFromYear (-1)) with v.
      let v := eval vm_compute in (JS.DayFromYear 1900) in
        change (JS.DayFromYear 1900) with v.
      unfold JS.msPerDay, MS_PER_DAY in *. lia.
    + rewrite MakeFullYear_outside by lia. rewrite MakeDay_february29.
      unfold JS.msPerDay, MS_PER_DAY in *. nia.
Qed.

Lemma onDayOutOfTime_false : forall t,
  onDayOutOfTime t = false -> t < dotMs t \/ dotMs t + MS_PER_DAY <= t.
Proof.
  intros t H. unfold onDayOutOfTime in H. apply andb_false_iff in H.
  destruct H as [H | H]; [rewrite Z.geb_leb in H; apply Z.leb_gt in H
                         | apply Z.ltb_ge in H]; lia.
Qed.

Lemma onHunabKu_false : forall t,
  onHunabKu t = false ->
  hasLeapDay t = false \/ t < hunabKuMs t \/ hunabKuMs t + MS_PER_DAY <= t.
Proof.
  intros t H. unfold onHunabKu in H. apply andb_false_iff in H.
  destruct H as [H | H].
  - apply andb_false_iff in H. destruct H as [H | H]; [left; exact H |].
    rewrite Z.geb_leb in H. apply Z.leb_gt in H. lia.
  - apply Z.ltb_ge in H. lia.
Qed.

(** Off the irregular days, the decrements of the code count the
    irregular days on or before the date. *)
Lemma adjustedDay_is_spec : forall t,
  onDayOutOfTime t = false -> onHunabKu t = false ->
  adjustedDay t = adjustedDay_spec t.
Proof.
  intros t Hdot Hhk. unfold adjustedDay, adjustedDay_spec, clamp. f_equal. f_equal.
  unfold rawAdjustedDay, irregularDaysPassed.
  apply onDayOutOfTime_false in Hdot. apply onHunabKu_false in Hhk.
  assert ((t >=? dotMs t + MS_PER_DAY) = (dotMs t <=? t)) as ->.
  { rewrite Z.geb_leb. unfold MS_PER_DAY in *.
    destruct (dotMs t + 86400000 <=? t) eqn:E1; destruct (dotMs t <=? t) eqn:E2;
      rewrite ?Z.leb_le, ?Z.leb_gt in *; try reflexivity; lia. }
  assert (hasLeapDay t && (t >=? hunabKuMs t + MS_PER_DAY)
          = hasLeapDay t && (hunabKuMs t <=? t)) as ->.
  { destruct (hasLeapDay t); [| reflexivity]. cbn [andb].
    rewrite Z.geb_leb. unfold MS_PER_DAY in *.
    destruct (hunabKuMs t + 86400000 <=? t) eqn:E1; destruct (hunabKuMs t <=? t) eqn:E2;
      rewrite ?Z.leb_le, ?Z.leb_gt in *; try reflexivity;
      destruct Hhk as [Hf | Hhk]; try discriminate Hf; lia. }
  destruct (dotMs t <=? t); destruct (hasLeapDay t && (hunabKuMs t <=? t)); lia.
Qed.






Lemma regular_day_of_cycle : forall y k ms,
  ~ (0 <= y <= 99) -> 0 <= ms < MS_PER_DAY -> 0 <= k <= 333 -> k <> 224 ->
  let t := afterApril1 y k ms in
  onDayOutOfTime t = false /\ onHunabKu t = false /\
  adjustedDay t = (if k <? 224 then k else k - 1).
Proof.
  intros y k ms Hy Hms Hk Hne t.
  destruct (cycle_facts y k ms Hy Hms Hk) as (Hyear & Hdays & Hdot & Hhunab).
  fold t in Hyear, Hdays, Hdot, Hhunab.
  assert (t = (JS.MakeDay y 3 1 + k) * MS_PER_DAY + ms) as Ht by reflexivity.
  assert (onHunabKu t = false) as Hhk.
  { unfold onHunabKu. destruct (hasLeapDay t); [| reflexivity].
    specialize (Hhunab eq_refl). cbn [andb].
    replace (t >=? hunabKuMs t) with false; [reflexivity |].
    symmetry. rewrite Z.geb_leb. apply Z.leb_gt. exact Hhunab. }
  assert (hasLeapDay t && (t >=? hunabKuMs t + MS_PER_DAY) = false) as Hpassed.
  { destruct (hasLeapDay t); [| reflexivity].
    specialize (Hhunab eq_refl). cbn [andb].
    rewrite Z.geb_leb. apply Z.leb_gt. unfold MS_PER_DAY. lia. }
  unfold adjustedDay, rawAdjustedDay, onDayOutOfTime.
  rewrite Hpassed, Hdays, Hdot. unfold MS_PER_DAY in *.
  destruct (k <? 224) eqn:Ek; [apply Z.ltb_lt in Ek | apply Z.ltb_ge in Ek].
  - replace (t >=? (JS.MakeDay y 3 1 + 224) * 86400000) with false
      by (symmetry; rewrite Z.geb_leb; apply Z.leb_gt; lia).
    replace (t >=? (JS.MakeDay y 3 1 + 224) * 86400000 + 86400000) with false
      by (symmetry; rewrite Z.geb_leb; apply Z.leb_gt; lia).
    repeat split; [exact Hhk | lia].
  - replace (t <? (JS.MakeDay y 3 1 + 224) * 86400000 + 86400000) with false
      by (symmetry; apply Z.ltb_ge; lia).
    replace (t >=? (JS.MakeDay y 3 1 + 224) * 86400000 + 86400000) with true
      by (symmetry; apply Z.geb_le; lia).
    rewrite andb_false_r. repeat split; [exact Hhk | lia].
Qed.




(** In the years 0..99 [Date.UTC] places the anchor in 1900..1999, and
    November 11 of such a year is not the Day Out of Time. *)
Lemma november11_of_year_50 :
  exists r,
    toThirteenMoonDate (afterApril1 50 224 0) = JS.Ok r /\
    isDayOutOfTime r = false /\ dayOfYear r = 1.
Proof. eexists. split; [vm_compute; reflexivity | repeat split]. Qed.

End ThirteenMoonProofs.

(* ===================================================================== *)
(** * Laws of the ternary operations                                      *)
(* ===================================================================== *)

Module TernaryLaws.
Import Types Ternary Spec.
Local Open Scope list_scope.

Ltac trit_cases :=
  repeat match goal with
         | H : isTritA ?v |- _ =>
             unfold isTritA in H;
             assert (v = -1 \/ v = 0 \/ v = 1) as [-> | [-> | ->]] by lia; clear H
         | H : isTritB ?v |- _ =>
             unfold isTritB in H;
             assert (v = 0 \/ v = 1 \/ v = 2) as [-> | [-> | ->]] by lia; clear H
         end.

(** The functions of [GF3] make the digits 0, 1, 2 the field of three
    elements: they stay within the digits, addition and multiplication
    are commutative and associative with neutral elements 0 and 1,
    [negate] and [subtract] undo addition, multiplication distributes
    over addition, and a digit other than 0 is its own inverse. *)
Theorem GF3_is_a_field : forall a b c : Z,
  isTritB a -> isTritB b -> isTritB c ->
  (isTritB (GF3_add a b) /\ isTritB (GF3_subtract a b) /\
   isTritB (GF3_multiply a b) /\ isTritB (GF3_negate a)) /\
  (GF3_add a b = GF3_add b a /\
   GF3_add (GF3_add a b) c = GF3_add a (GF3_add b c) /\
   GF3_add a 0 = a /\
   GF3_add a (GF3_negate a) = 0 /\
   GF3_subtract (GF3_add a b) b = a /\
   GF3_subtract a b = GF3_add a (GF3_negate b)) /\
  (GF3_multiply a b = GF3_multiply b a /\
   GF3_multiply (GF3_multiply a b) c = GF3_multiply a (GF3_multiply b c) /\
   GF3_multiply a 1 = a /\
   GF3_multiply a (GF3_add b c) = GF3_add (GF3_multiply a b) (GF3_multiply a c) /\
   (a <> 0 -> GF3_multiply a a = 1)).
Proof.
  intros a b c Ha Hb Hc. trit_cases; unfold isTritB; vm_compute;
    repeat split; try discriminate; try reflexivity; intro H; exfalso; apply H; reflexivity.
Qed.

Lemma GF3_is_a_field_witness :
  GF3_add 2 1 = GF3_add 1 2 /\ GF3_subtract (GF3_add 2 1) 1 = 2 /\
  GF3_multiply 2 (GF3_add 1 2) = GF3_add (GF3_multiply 2 1) (GF3_multiply 2 2).
Proof.
  assert (isTritB 2) as H2 by (unfold isTritB; lia).
  assert (isTritB 1) as H1 by (unfold isTritB; lia).
  destruct (GF3_is_a_field 2 1 2 H2 H1 H2)
    as (_ & (Hc & _ & _ & _ & Hs & _) & (_ & _ & _ & Hd & _)).
  repeat split; assumption.
Defined.

(** [ternaryAdd] and [ternaryMultiply] keep the digits -1, 0, 1 and are
    commutative and associative on them; they are the operations of [GF3]
    carried over by the shift by one, so that the neutral element of
    [ternaryAdd] is -1, not 0 (adding 0 to 0 gives 1), and for
    [ternaryMultiply] 0 is neutral and -1 absorbing. *)
Theorem balanced_operations_are_shifted : forall a b c : Z,
  isTritA a -> isTritA b -> isTritA c ->
  isTritA (result (ternaryAdd a b)) /\
  isTritA (result (ternaryMultiply a b)) /\
  result (ternaryAdd a b) = result (ternaryAdd b a) /\
  result (ternaryAdd (result (ternaryAdd a b)) c)
    = result (ternaryAdd a (result (ternaryAdd b c))) /\
  result (ternaryAdd a (-1)) = a /\
  result (ternaryAdd 0 0) = 1 /\
  result (ternaryMultiply a b) = result (ternaryMultiply b a) /\
  result (ternaryMultiply (result (ternaryMultiply a b)) c)
    = result (ternaryMultiply a (result (ternaryMultiply b c))) /\
  result (ternaryMultiply a 0) = a /\
  result (ternaryMultiply a (-1)) = -1.
Proof.
  intros a b c Ha Hb Hc. trit_cases; unfold isTritA; vm_compute;
    repeat split; try discriminate; reflexivity.
Qed.

Lemma balanced_operations_are_shifted_witness :
  result (ternaryAdd 1 (-1)) = 1 /\ result (ternaryMultiply 1 0) = 1.
Proof.
  assert (isTritA 1) as H1 by (unfold isTritA; lia).
  destruct (balanced_operations_are_shifted 1 1 1 H1 H1 H1)
    as (_ & _ & _ & _ & Ha & _ & _ & _ & Hm & _).
  split; assumption.
Defined.

Lemma normalized_steps : forall steps, Z.rem (Z.rem steps 3 + 3) 3 = steps mod 3.
Proof. intro steps. Z.to_euclidean_division_equations. lia. Qed.

(** [ternaryRotate] keeps the digits -1, 0, 1 for every integer number
    of steps, negative ones included; rotating by [s] and then by [t] is
    rotating by [s + t]; three more steps change nothing, and no step
    changes nothing. *)
Theorem ternaryRotate_is_cyclic : forall v s t : Z,
  isTritA v ->
  isTritA (result (ternaryRotate v s)) /\
  result (ternaryRotate (result (ternaryRotate v s)) t) = result (ternaryRotate v (s + t)) /\
  result (ternaryRotate v (s + 3)) = result (ternaryRotate v s) /\
  result (ternaryRotate v 0) = v.
Proof.
  intros v s t Hv. unfold ternaryRotate, mkOperation; cbn [result].
  rewrite !normalized_steps. unfold isTritA in *.
  assert (0 <= s mod 3 < 3) as Hs by (apply Z.mod_pos_bound; lia).
  assert (0 <= t mod 3 < 3) as Ht by (apply Z.mod_pos_bound; lia).
  assert ((s + 3) mod 3 = s mod 3) as -> by (Z.to_euclidean_division_equations; lia).
  assert ((s + t) mod 3 = (s mod 3 + t mod 3) mod 3) as -> by (apply Z.add_mod; lia).
  change (0 mod 3) with 0.
  repeat split; Z.to_euclidean_division_equations; lia.
Qed.

Lemma ternaryRotate_is_cyclic_witness :
  result (ternaryRotate (result (ternaryRotate 1 (-1))) 5) = result (ternaryRotate 1 (-1 + 5)).
Proof.
  apply (ternaryRotate_is_cyclic 1 (-1) 5). unfold isTritA. lia.
Defined.

Lemma loop_append : forall num, 0 <= num -> forall digits,
  toBijectiveTernary_loop num digits = toBijectiveTernary_loop num [] ++ digits.
Proof.
  intros num Hnum. pattern num. apply Zlt_0_ind; [| exact Hnum].
  clear num Hnum. intros num IH Hnum digits.
  rewrite (TernaryProofs.loop_step num digits), (TernaryProofs.loop_step num []).
  destruct (0 <? num) eqn:Hpos; [| reflexivity].
  apply Z.ltb_lt in Hpos.
  assert (0 <= num / 3 < num) as Hq by (Z.to_euclidean_division_equations; lia).
  destruct (Z.rem num 3 =? 0) eqn:Hr.
  - apply Z.eqb_eq in Hr.
    assert (0 <= num / 3 - 1 < num) as Hq' by (Z.to_euclidean_division_equations; lia).
    rewrite (IH _ Hq' (3 :: digits)), (IH _ Hq' [3]). rewrite <- app_assoc. reflexivity.
  - rewrite (IH _ Hq (Z.rem num 3 :: digits)), (IH _ Hq [Z.rem num 3]).
    rewrite <- app_assoc. reflexivity.
Qed.

Lemma loop_digits : forall num, 0 <= num ->
  Forall isTritC (toBijectiveTernary_loop num []) /\
  (0 < num -> toBijectiveTernary_loop num [] <> []).
Proof.
  intros num Hnum. pattern num. apply Zlt_0_ind; [| exact Hnum].
  clear num Hnum. intros num IH Hnum.
  rewrite (TernaryProofs.loop_step num []).
  destruct (0 <? num) eqn:Hpos; [| split; [constructor | apply Z.ltb_ge in Hpos; lia]].
  apply Z.ltb_lt in Hpos.
  assert (0 <= num / 3 < num) as Hq by (Z.to_euclidean_division_equations; lia).
  destruct (Z.rem num 3 =? 0) eqn:Hr.
  - apply Z.eqb_eq in Hr.
    assert (0 <= num / 3 - 1 < num) as Hq' by (Z.to_euclidean_division_equations; lia).
    rewrite loop_append by lia. split.
    + apply Forall_app. split; [apply IH; exact Hq' |].
      constructor; [unfold isTritC; lia | constructor].
    + intros _ E. apply app_eq_nil in E. destruct E as [_ E]. discriminate E.
  - apply Z.eqb_neq in Hr. rewrite loop_append by lia. split.
    + apply Forall_app. split; [apply IH; exact Hq |].
      constructor; [unfold isTritC; Z.to_euclidean_division_equations; lia | constructor].
    + intros _ E. apply app_eq_nil in E. destruct E as [_ E]. discriminate E.
Qed.

Lemma decode_snoc : forall ds d,
  fromBijectiveTernary (ds ++ [d]) = fromBijectiveTernary ds * 3 + d.
Proof. intros ds d. unfold fromBijectiveTernary. rewrite fold_left_app. reflexivity. Qed.

Lemma decode_nonneg : forall ds, Forall isTritC ds ->
  0 <= fromBijectiveTernary ds /\ (ds <> [] -> 0 < fromBijectiveTernary ds).
Proof.
  intros ds. induction ds as [| d ds IH] using rev_ind; intro Hv.
  - split; [reflexivity | intro H; contradiction].
  - apply Forall_app in Hv. destruct Hv as [Hds Hd].
    inversion Hd as [| ? ? Hd1 _]; subst. unfold isTritC in Hd1.
    rewrite decode_snoc. destruct (IH Hds) as [H0 _]. split; [lia | intros _; lia].
Qed.

Lemma loop_encodes : forall ds, Forall isTritC ds ->
  toBijectiveTernary_loop (fromBijectiveTernary ds) [] = ds.
Proof.
  intros ds. induction ds as [| d ds IH] using rev_ind; intro Hv.
  - rewrite TernaryProofs.loop_step. reflexivity.
  - apply Forall_app in Hv. destruct Hv as [Hds Hd].
    inversion Hd as [| ? ? Hd1 _]; subst. unfold isTritC in Hd1.
    destruct (decode_nonneg ds Hds) as [Hm _].
    rewrite decode_snoc. set (m := fromBijectiveTernary ds) in *.
    rewrite TernaryProofs.loop_step.
    replace (0 <? m * 3 + d) with true by (symmetry; apply Z.ltb_lt; lia).
    rewrite Z.rem_mod_nonneg by lia.
    destruct (Z.eq_dec d 3) as [-> | Hne].
    + replace ((m * 3 + 3) mod 3) with 0 by (Z.to_euclidean_division_equations; lia).
      replace ((m * 3 + 3) / 3 - 1) with m by (Z.to_euclidean_division_equations; lia).
      change (0 =? 0) with true. cbv iota.
      rewrite loop_append by exact Hm. rewrite (IH Hds). reflexivity.
    + replace ((m * 3 + d) mod 3) with d by (Z.to_euclidean_division_equations; lia).
      replace ((m * 3 + d) / 3) with m by (Z.to_euclidean_division_equations; lia).
      replace (d =? 0) with false by (symmetry; apply Z.eqb_neq; lia).
      rewrite loop_append by exact Hm. rewrite (IH Hds). reflexivity.
Qed.


Lemma round_nonneg : forall x : Q, (0 <= x)%Q -> 0 <= JS.Math_round x.
Proof.
  intros x Hx. unfold JS.Math_round. change 0 with (Qfloor 0).
  apply Qfloor_resp_le. lra.
Qed.

(** For an angle that is not negative the signature [getAspectTernarySignature]
    returns is well formed: the class is a digit 0, 1, 2 congruent to the
    phase count, its resonance text is defined, and the triple holds the
    class as a digit of each representation, the three congruent modulo
    3.  A negative phase count that is no multiple of 3 gives a negative
    class and an undefined resonance. *)
Theorem signature_triple_is_consistent : forall angle : Q,
  let s := getAspectTernarySignature angle in
  ((0 <= angle)%Q ->
   0 <= s_phaseCount s /\
   isTritB (s_gf3 s) /\
   (s_phaseCount s - s_gf3 s) mod 3 = 0 /\
   (exists text, s_resonance s = Some text) /\
   isTritA (triple_a (s_resonanceTriple s)) /\
   triple_b (s_resonanceTriple s) = s_gf3 s /\
   isTritC (triple_c (s_resonanceTriple s)) /\
   (triple_a (s_resonanceTriple s) - s_gf3 s) mod 3 = 0 /\
   (triple_c (s_resonanceTriple s) - s_gf3 s) mod 3 = 0) /\
  (s_phaseCount s < 0 -> s_phaseCount s mod 3 <> 0 ->
   s_gf3 s < 0 /\ s_resonance s = None).
Proof.
  intros angle s. unfold s, getAspectTernarySignature.
  cbn [s_phaseCount s_gf3 s_resonance s_resonanceTriple triple_a triple_b triple_c].
  set (pc := JS.Math_round (angle / Constants.PHASE_SIZE)).
  split.
  - intro Hangle.
    assert (0 <= pc) as Hpc.
    { apply round_nonneg. unfold Constants.PHASE_SIZE.
      apply Qle_shift_div_l; [reflexivity | lra]. }
    clearbody pc. rewrite Z.rem_mod_nonneg by lia.
    assert (pc mod 3 = 0 \/ pc mod 3 = 1 \/ pc mod 3 = 2) as Hc
      by (Z.to_euclidean_division_equations; lia).
    destruct Hc as [E | [E | E]]; rewrite E; cbn; unfold isTritA, isTritB, isTritC;
      (repeat split; try lia; try (eexists; reflexivity);
       try (Z.to_euclidean_division_equations; lia)).
  - clearbody pc. intros Hneg Hmod.
    assert (Z.rem pc 3 = -1 \/ Z.rem pc 3 = -2) as Hc
      by (Z.to_euclidean_division_equations; lia).
    destruct Hc as [E | E]; rewrite E; split; reflexivity || lia.
Qed.

Ltac eqb_cases :=
  repeat match goal with
         | |- context [Z.eqb ?a ?b] => destruct (Z.eqb_spec a b)
         end.

(** [convertTrit] fails exactly when the two representations differ and
    are not both among A, B, C.  When it answers, the record carries the
    value and the two representations it was given, and the converted
    digit has the meaning of the original one, for every value, valid
    digit or not. *)
Theorem convertTrit_preserves_meaning : forall (v : Z) (X Y : Representation),
  ((exists e, convertTrit v X Y = JS.Throw e) <->
   X <> Y /\ ~ (recognized X /\ recognized Y)) /\
  (forall r, convertTrit v X Y = JS.Ok r ->
     value (original r) = v /\
     representation (original r) = X /\
     representation (converted r) = Y /\
     meaning (original r) = getTritMeaning v X /\
     meaning (converted r) = meaning (original r)).
Proof.
  intros v X Y. unfold recognized, convertTrit, getTritMeaning.
  repeat match goal with
         | |- context [String.eqb ?a ?b] =>
             destruct (String.eqb_spec a b); try subst; try congruence
         end;
    cbn [andb];
    (split;
     [ split;
       [ intros [e He];
         first [ discriminate He
               | split;
                 [ assumption || congruence
                 | intros [HrX HrY];
                   repeat match goal with H : _ \/ _ |- _ => destruct H end;
                   congruence ] ]
       | intros [Hd Hr]; try (eexists; reflexivity); exfalso;
         try (apply Hd; reflexivity); apply Hr; split; tauto ]
     | intros r Hr; try discriminate Hr; injection Hr as <-;
       cbn [original converted value representation meaning];
       repeat split; eqb_cases; try reflexivity; lia ]).
Qed.

(** For an angle from 0 up [calculateAspectResonance] gives a residue of
    0..2 with its resonance word, the residue and word
    [getAspectTernarySignature] gives, and a frequency that is 364
    divided by the phase count, the phase count 0 taken for 1: the
    frequency is in (0, 364], and it is 364 for every angle under 42. *)
Theorem cosmicFrequency_divides_the_circle : forall aspectAngle : Q,
  (0 <= aspectAngle)%Q ->
  isTritB (gf3Value (calculateAspectResonance aspectAngle)) /\
  gf3Value (calculateAspectResonance aspectAngle)
  = s_gf3 (getAspectTernarySignature aspectAngle) /\
  resonanceType (calculateAspectResonance aspectAngle)
  = s_resonance (getAspectTernarySignature aspectAngle) /\
  (exists text, resonanceType (calculateAspectResonance aspectAngle) = Some text) /\
  (cosmicFrequency (calculateAspectResonance aspectAngle)
   * inject_Z (Z.max 1 (s_phaseCount (getAspectTernarySignature aspectAngle)))
   == 364)%Q /\
  (0 < cosmicFrequency (calculateAspectResonance aspectAngle) <= 364)%Q /\
  ((cosmicFrequency (calculateAspectResonance aspectAngle) == 364)%Q
   <-> (aspectAngle < 42)%Q).
Proof.
  intros angle Hangle.
  unfold calculateAspectResonance, getAspectTernarySignature.
  cbn [gf3Value resonanceType cosmicFrequency s_gf3 s_resonance s_phaseCount].
  assert (0 <= JS.Math_round (angle / Constants.PHASE_SIZE)) as Hpc.
  { apply round_nonneg. unfold Constants.PHASE_SIZE.
    apply Qle_shift_div_l; [reflexivity | lra]. }
  assert (JS.Math_round (angle / Constants.PHASE_SIZE) <= 1 <-> (angle < 42)%Q) as Hsmall.
  { unfold JS.Math_round, Constants.PHASE_SIZE.
    assert (angle / 28 + (1 # 2) == angle * (1 # 28) + (1 # 2))%Q as E by field.
    rewrite (Qfloor_comp _ _ E).
    pose proof (Qfloor_le (angle * (1 # 28) + (1 # 2))) as Hlo.
    pose proof (Qlt_floor (angle * (1 # 28) + (1 # 2))) as Hhi.
    rewrite inject_Z_plus in Hhi. change (inject_Z 1) with 1%Q in Hhi.
    set (f := Qfloor (angle * (1 # 28) + (1 # 2))) in *. clearbody f. split.
    - intro Hf. assert (inject_Z f <= inject_Z 1)%Q as H by (rewrite <- Zle_Qle; exact Hf).
      change (inject_Z 1) with 1%Q in H. lra.
    - intro Ha. assert (inject_Z f < inject_Z 2)%Q as H
        by (change (inject_Z 2) with 2%Q; lra).
      rewrite <- Zlt_Qlt in H. lia. }
  set (pc := JS.Math_round (angle / Constants.PHASE_SIZE)) in *. clearbody pc.
  unfold Constants.PRIME_CIRCLE.
  rewrite Z.rem_mod_nonneg by lia.
  assert (pc mod 3 = 0 \/ pc mod 3 = 1 \/ pc mod 3 = 2) as Hc
    by (Z.to_euclidean_division_equations; lia).
  split; [unfold isTritB; lia |]. split; [reflexivity |]. split; [reflexivity |].
  split; [destruct Hc as [-> | [-> | ->]]; eexists; reflexivity |].
  destruct (0 <? pc) eqn:E; [apply Z.ltb_lt in E | apply Z.ltb_ge in E].
  - replace (Z.max 1 pc) with pc by lia.
    assert (0 < inject_Z pc)%Q as Hq
      by (change 0%Q with (inject_Z 0); rewrite <- Zlt_Qlt; exact E).
    assert (1 <= inject_Z pc)%Q as Hq1
      by (change 1%Q with (inject_Z 1); rewrite <- Zle_Qle; lia).
    assert (364 / inject_Z pc * inject_Z pc == 364)%Q as Hmul by (field; lra).
    assert (0 < 364 / inject_Z pc)%Q as Hpos.
    { apply Qlt_shift_div_l; [exact Hq | lra]. }
    split; [exact Hmul |].
    set (fr := (364 / inject_Z pc)%Q) in *. clearbody fr.
    split; [split; [exact Hpos | nra] |].
    rewrite <- Hsmall. split.
    + intro Hfr. rewrite Hfr in Hmul.
      assert (inject_Z pc == 1)%Q as H1 by lra.
      change 1%Q with (inject_Z 1) in H1.
      assert (pc = 1) by (apply inject_Z_injective; exact H1). lia.
    + intro Hle. assert (pc = 1) as -> by lia. change (inject_Z 1) with 1%Q in Hmul. lra.
  - assert (pc = 0) as -> by lia. cbn [Z.max]. change (inject_Z (Z.max 1 0)) with 1%Q.
    split; [ring |]. split; [split; [reflexivity | apply Qle_refl] |].
    rewrite <- Hsmall. split; [lia | reflexivity].
Qed.

Lemma cosmicFrequency_divides_the_circle_witness :
  (cosmicFrequency (calculateAspectResonance 182)
   * inject_Z (Z.max 1 (s_phaseCount (getAspectTernarySignature 182))) == 364)%Q.
Proof.
  apply (cosmicFrequency_divides_the_circle 182). discriminate.
Defined.

(** [ternaryXor] and [ternaryNot] keep the digits -1, 0, 1.
    [ternaryXor] is commutative, gives the other operand when one
    operand is 0 and 0 in every other case, so it cancels a digit
    against itself and against its negation alike and is not
    associative; [ternaryNot] is its own inverse and passes through
    [ternaryXor]. *)
Theorem ternaryXor_keeps_the_lone_operand : forall a b : Z,
  isTritA a -> isTritA b ->
  isTritA (result (ternaryXor a b)) /\
  isTritA (result (ternaryNot a)) /\
  result (ternaryXor a b) = result (ternaryXor b a) /\
  result (ternaryXor a 0) = a /\
  result (ternaryXor a a) = 0 /\
  result (ternaryXor a (result (ternaryNot a))) = 0 /\
  (result (ternaryXor a b) <> 0 <-> (a = 0 /\ b <> 0) \/ (a <> 0 /\ b = 0)) /\
  result (ternaryNot (result (ternaryNot a))) = a /\
  result (ternaryXor (result (ternaryNot a)) (result (ternaryNot b)))
  = result (ternaryNot (result (ternaryXor a b))) /\
  result (ternaryXor (result (ternaryXor 1 1)) (-1))
  <> result (ternaryXor 1 (result (ternaryXor 1 (-1)))).
Proof.
  intros a b Ha Hb. trit_cases; unfold isTritA; vm_compute;
    repeat split; try discriminate; try reflexivity; try tauto;
    try (intros [[H1 H2] | [H1 H2]]; discriminate || (exfalso; apply H2; reflexivity)
                                     || (exfalso; apply H1; reflexivity));
    try (intro H; exfalso; apply H; reflexivity);
    try (intros _; (left; split; [reflexivity | discriminate])
                   || (right; split; [discriminate | reflexivity])).
Qed.

Lemma ternaryXor_keeps_the_lone_operand_witness :
  result (ternaryXor 1 (result (ternaryNot 1))) = 0 /\
  result (ternaryXor 1 0) = 1.
Proof.
  assert (isTritA 1) as H1 by (unfold isTritA; lia).
  assert (isTritA 0) as H0 by (unfold isTritA; lia).
  destruct (ternaryXor_keeps_the_lone_operand 1 0 H1 H0)
    as (_ & _ & _ & Hz & _ & Hn & _).
  split; assumption.
Defined.

End TernaryLaws.

(* ===================================================================== *)
(** * Laws of the degree conversions                                      *)
(* ===================================================================== *)

Module ConversionsLaws.
Import Types Constants Conversions Spec RationalFacts.
Local Open Scope list_scope.
Local Open Scope Q_scope.

Lemma tropicalToPrime_compat : forall a b : Q, a == b -> tropicalToPrime a == tropicalToPrime b.
Proof.
  intros a b E. rewrite !tropicalToPrime_snapPrime.
  apply snapPrime_compat, wrap_compat, E.
Qed.

(** [wrap x m] is the one value of [[0, m)] that differs from [x] by a
    multiple of [m]. *)
Lemma wrap_shift : forall (x m : Q) (k : Z),
  0 < m -> 0 <= x + m * inject_Z k < m -> wrap x m == x + m * inject_Z k.
Proof.
  intros x m k Hm Hr.
  destruct (wrap_congruent x m Hm) as [k1 Hk1].
  apply (residue_unique _ _ m (- k1 - k)%Z Hm); [apply wrap_range, Hm | exact Hr |].
  unfold Z.sub. rewrite inject_Z_plus, !inject_Z_opp.
  set (w := wrap x m) in *. lra.
Qed.

Lemma floor_unique : forall (x : Q) (n : Z),
  inject_Z n <= x < inject_Z n + 1 -> Qfloor x = n.
Proof.
  intros x n [Hlo Hhi].
  pose proof (Qfloor_le x) as H1. pose proof (Qlt_floor x) as H2.
  rewrite inject_Z_plus in H2. change (inject_Z 1) with 1 in H2.
  assert (inject_Z n < inject_Z (Qfloor x) + 1) as A by lra.
  assert (inject_Z (Qfloor x) < inject_Z n + 1) as B by lra.
  change 1 with (inject_Z 1) in A, B. rewrite <- inject_Z_plus in A, B.
  rewrite <- Zlt_Qlt in A, B. lia.
Qed.

(** On a dividend that is not negative [%] is the floored modulo. *)
Lemma rem_nonneg_floor : forall a b : Q, 0 < b -> 0 <= a ->
  JS.rem a b == a - b * inject_Z (Qfloor (a / b)).
Proof.
  intros a b Hb Ha. unfold JS.rem, JS.trunc.
  assert (0 <= a / b) as Hq by (apply Qle_shift_div_l; lra).
  apply Qle_bool_iff in Hq. rewrite Hq. reflexivity.
Qed.

Lemma last_house : forall r : Q, 336 <= r < 364 -> Qfloor (r / PHASE_SIZE) = 12%Z.
Proof.
  intros r Hr. apply floor_unique. unfold PHASE_SIZE.
  assert (r / 28 == r * (1 # 28)) as -> by field.
  change (inject_Z 12) with 12. lra.
Qed.

Lemma getPrimeCusps_from_nth : forall count ascPrime i j,
  (j < count)%nat ->
  nth_error (getPrimeCusps_from ascPrime i count) j
  = Some (wrap (ascPrime + inject_Z (i + Z.of_nat j) * PHASE_SIZE) PRIME_CIRCLE).
Proof.
  induction count as [| count IH]; intros ascPrime i j Hj; [lia |].
  destruct j as [| j]; cbn [getPrimeCusps_from nth_error].
  - rewrite Z.add_0_r. reflexivity.
  - rewrite IH by lia.
    replace (i + 1 + Z.of_nat j)%Z with (i + Z.of_nat (S j))%Z by lia. reflexivity.
Qed.

Lemma getPrimeCusps_from_length : forall count ascPrime i,
  List.length (getPrimeCusps_from ascPrime i count) = count.
Proof.
  induction count as [| count IH]; intros ascPrime i; cbn; [reflexivity |].
  rewrite IH. reflexivity.
Qed.

(** [getPrimeCusps] returns 13 cusps, each in [[0, 364)]: cusp [i] is
    the unified ascendant advanced by [i] phases of 28 around the circle,
    and cusp 0 is the unified ascendant itself. *)
Theorem getPrimeCusps_are_28_apart : forall (tropicalAscendant : Q) (i : nat),
  List.length (getPrimeCusps tropicalAscendant) = 13%nat /\
  ((i < 13)%nat ->
   exists cusp,
     nth_error (getPrimeCusps tropicalAscendant) i = Some cusp /\
     0 <= cusp < 364 /\
     cusp == flooredMod (tropicalToPrime tropicalAscendant + 28 * inject_Z (Z.of_nat i)) 364 /\
     (i = 0%nat -> cusp == tropicalToPrime tropicalAscendant)).
Proof.
  intros a i. unfold getPrimeCusps. change (Z.to_nat NUM_PHASES) with 13%nat.
  split; [apply getPrimeCusps_from_length |]. intro Hi.
  eexists. split; [apply getPrimeCusps_from_nth; exact Hi |].
  assert (0 < 364) as H364 by lra. unfold PRIME_CIRCLE, PHASE_SIZE.
  rewrite Z.add_0_l.
  split; [apply wrap_range; exact H364 |]. split.
  - rewrite wrap_flooredMod by exact H364. unfold flooredMod.
    assert (tropicalToPrime a + inject_Z (Z.of_nat i) * 28
            == tropicalToPrime a + 28 * inject_Z (Z.of_nat i)) as E by ring.
    rewrite (Qfloor_comp _ _ (Qdiv_comp _ _ E 364 364 (Qeq_refl 364))).
    rewrite E. reflexivity.
  - intros ->. change (inject_Z (Z.of_nat 0)) with 0.
    destruct (tropicalToPrime_bounds a) as [Hr _].
    rewrite (wrap_compat _ (tropicalToPrime a)) by ring.
    apply wrap_small. exact Hr.
Qed.

Lemma thirteenth_house_agreement : forall (degree : Q) (houseCusps : list Q),
  (13 <= List.length houseCusps)%nat ->
  isIn13thHouse degree houseCusps = alsoIn13th (getHouseFromDegree degree houseCusps).
Proof.
  intros degree houseCusps Hlen.
  destruct houseCusps as [| cusp0 rest]; [cbn in Hlen; lia |].
  destruct (ConversionsProofs.getHouseFromDegree_first_cusp degree cusp0 rest)
    as (_ & Ha & _).
  rewrite Ha. clear Ha.
  unfold isIn13thHouse, NUM_PHASES.
  replace (Z.of_nat (List.length (cusp0 :: rest)) <? 13)%Z with false
    by (symmetry; apply Z.ltb_ge; lia).
  cbn [nth_error].
  assert (0 < 364) as H364 by lra.
  pose proof (wrap_range (tropicalToPrime degree - tropicalToPrime cusp0) 364 H364) as Hr.
  unfold PRIME_CIRCLE.
  set (r := wrap (tropicalToPrime degree - tropicalToPrime cusp0) 364) in *.
  clearbody r.
  replace (JS.ltb r (13 * PHASE_SIZE)) with true
    by (symmetry; apply ltb_lt; unfold PHASE_SIZE; lra).
  rewrite andb_true_r. unfold PHASE_SIZE at 1.
  destruct (Qle_bool (12 * 28) r) eqn:E.
  - apply Qle_bool_iff in E. rewrite last_house by lra. reflexivity.
  - assert (~ 12 * 28 <= r) as Hn
      by (intro H; apply Qle_bool_iff in H; congruence).
    assert (r < 336) as Hlt by (apply Qnot_le_lt; intro H; apply Hn; lra).
    pose proof (ConversionsProofs.house_index_range r Hr) as Hidx.
    unfold PHASE_SIZE in *.
    symmetry. apply Z.eqb_neq. intro Heq.
    assert (Qfloor (r / 28) = 12%Z) as H12 by lia.
    pose proof (Qfloor_le (r / 28)) as Hle. rewrite H12 in Hle.
    assert (r / 28 == r * (1 # 28)) as Hd by field. rewrite Hd in Hle.
    change (inject_Z 12) with 12 in Hle. lra.
Qed.

(** On a table of 13 cusps or more the two house functions agree:
    [isIn13thHouse] holds exactly when [getHouseFromDegree] reports
    [alsoIn13th], which is when its house is 13. *)
Theorem thirteenth_house_functions_agree : forall (degree : Q) (houseCusps : list Q),
  (13 <= List.length houseCusps)%nat ->
  isIn13thHouse degree houseCusps = alsoIn13th (getHouseFromDegree degree houseCusps) /\
  (alsoIn13th (getHouseFromDegree degree houseCusps) = true <->
   house (getHouseFromDegree degree houseCusps) = Some 13%Z).
Proof.
  intros degree houseCusps Hlen.
  split; [apply thirteenth_house_agreement; exact Hlen |].
  destruct houseCusps as [| cusp0 rest]; [cbn in Hlen; lia |].
  destruct (ConversionsProofs.getHouseFromDegree_first_cusp degree cusp0 rest)
    as (Hh & Ha & _).
  rewrite Hh, Ha. clear Hh Ha.
  generalize (Qfloor (wrap (tropicalToPrime degree - tropicalToPrime cusp0) PRIME_CIRCLE
                      / PHASE_SIZE) + 1)%Z.
  intro h. rewrite Z.eqb_eq.
  split; [intros ->; reflexivity | intro H; injection H; auto].
Qed.

Lemma thirteenth_house_functions_agree_witness :
  isIn13thHouse 350 (getPrimeCusps 0)
  = alsoIn13th (getHouseFromDegree 350 (getPrimeCusps 0)).
Proof.
  refine (proj1 (thirteenth_house_functions_agree 350 (getPrimeCusps 0) _)).
  unfold getPrimeCusps. rewrite getPrimeCusps_from_length. cbn. lia.
Defined.

Lemma wrap_360_cases : forall p : Q, 0 <= p < 364 ->
  (p < 360 -> wrap p 360 == p) /\ (360 <= p -> wrap p 360 == p - 360).
Proof.
  intros p Hp. split; intro H.
  - apply wrap_small. lra.
  - assert (0 < 360) as H360 by lra.
    rewrite (wrap_shift p 360 (-1) H360); change (inject_Z (-1)) with (-(1)); lra.
Qed.

(** Converting a unified degree a second time moves it forward by a
    90th of itself; the distance back to it reaches into the last phase. *)
Lemma double_conversion_offset : forall p : Q,
  0 <= p -> p <= 364 - EPSILON ->
  (p == 0 -> wrap (p - tropicalToPrime p) 364 == 0) /\
  (0 < p -> 336 <= wrap (p - tropicalToPrime p) 364 < 364).
Proof.
  intros p Hp0 Hp1. unfold EPSILON in Hp1.
  assert (0 < 360) as H360 by lra. assert (0 < 364) as H364 by lra.
  assert (0 <= p < 364) as Hp by lra.
  destruct (wrap_360_cases p Hp) as [Hlow Hhigh].
  pose proof (wrap_range p 360 H360) as Hn.
  pose proof (snapPrime_value (wrap p 360) Hn) as Hv.
  rewrite <- tropicalToPrime_snapPrime in Hv.
  set (n := wrap p 360) in *. clearbody n.
  set (p' := tropicalToPrime p) in *. clearbody p'.
  assert (n * (364 / 360) == n * (91 # 90)) as Hscale by field.
  destruct (JS.ltb (Qabs (n * (364 / 360) - 364)) EPSILON) eqn:Eb.
  - apply ltb_lt in Eb. unfold EPSILON in Eb. apply Qabs_Qlt_condition in Eb.
    destruct Eb as [Eb _].
    assert (p < 360) as Hlt.
    { destruct (Qlt_le_dec p 360) as [H | H]; [exact H |].
      specialize (Hhigh H). exfalso. lra. }
    specialize (Hlow Hlt).
    assert (wrap (p - p') 364 == p) as Hw.
    { rewrite (wrap_compat (p - p') p 364) by lra. apply wrap_small. lra. }
    split; intro H; rewrite Hw; lra.
  - destruct (Qlt_le_dec p 360) as [Hlt | Hge].
    + specialize (Hlow Hlt). split; intro H.
      * rewrite (wrap_compat (p - p') 0 364) by lra. apply wrap_small. lra.
      * rewrite (wrap_shift (p - p') 364 1 H364); change (inject_Z 1) with 1; lra.
    + specialize (Hhigh Hge). split; intro H; [exfalso; lra |].
      rewrite (wrap_small (p - p') 364) by lra. lra.
Qed.

Lemma first_cusp : forall a,
  exists cusp0 rest,
    getPrimeCusps a = cusp0 :: rest /\ cusp0 == tropicalToPrime a.
Proof.
  intro a. unfold getPrimeCusps. change (Z.to_nat NUM_PHASES) with 13%nat.
  cbn [getPrimeCusps_from]. do 2 eexists. split; [reflexivity |].
  destruct (tropicalToPrime_bounds a) as [Hr _].
  unfold PRIME_CIRCLE, PHASE_SIZE.
  rewrite (wrap_compat _ (tropicalToPrime a)) by (change (inject_Z 0) with 0; ring).
  apply wrap_small. exact Hr.
Qed.


Lemma SALVI_SIGNS_index : forall i : Z, (0 <= i <= 12)%Z ->
  exists sign,
    JS.index SALVI_SIGNS i = Some sign /\
    startDegree sign == 28 * inject_Z i /\
    endDegree sign == 28 * inject_Z (i + 1).
Proof.
  intros i Hi.
  assert (i = 0 \/ i = 1 \/ i = 2 \/ i = 3 \/ i = 4 \/ i = 5 \/ i = 6 \/ i = 7
          \/ i = 8 \/ i = 9 \/ i = 10 \/ i = 11 \/ i = 12)%Z as Hc by lia.
  repeat match goal with H : _ \/ _ |- _ => destruct H end; subst i;
    eexists; (split; [reflexivity | split; reflexivity]).
Qed.

(** What [getSalviSignFromPrimeDegree] returns, in terms of the degree
    it has normalized. *)
Lemma getSalviSign_run : forall x : Q,
  let n := if JS.ltb (Qabs (wrap x 364 - 364)) EPSILON then 0 else wrap x 364 in
  exists r sign,
    getSalviSignFromPrimeDegree x = JS.Ok r /\
    signNumber r = (Qfloor (n / 28) + 1)%Z /\
    degreeInSign r = JS.rem n 28 /\
    JS.index SALVI_SIGNS (Qfloor (n / 28)) = Some sign /\
    signName r = sign_name sign /\
    startDegree sign == 28 * inject_Z (Qfloor (n / 28)) /\
    endDegree sign == 28 * inject_Z (Qfloor (n / 28) + 1).
Proof.
  intros x n.
  assert (0 <= n < 364) as Hn.
  { unfold n. pose proof (wrap_range x 364 ltac:(lra)). destruct (JS.ltb _ _); lra. }
  pose proof (ConversionsProofs.house_index_range n Hn) as Hidx.
  unfold PHASE_SIZE in Hidx.
  destruct (SALVI_SIGNS_index _ Hidx) as (sign & Hsign & Hs & He).
  unfold getSalviSignFromPrimeDegree, PRIME_CIRCLE, PHASE_SIZE, NUM_PHASES.
  fold n. clearbody n.
  replace (Qfloor (n / 28) >=? 13)%Z with false
    by (symmetry; rewrite Z.geb_leb; apply Z.leb_gt; lia).
  replace (Qfloor (n / 28) <? 0)%Z with false by (symmetry; apply Z.ltb_ge; lia).
  rewrite Hsign. do 2 eexists. split; [reflexivity |].
  cbn [signNumber degreeInSign signName]. repeat split; assumption.
Qed.



Lemma convertToTernary_loop_step : forall num digits,
  convertToTernary_loop num digits =
  if (0 <? num)%Z
  then convertToTernary_loop (num / 3) (JS.String_of (Z.rem num 3) :: digits)
  else digits.
Proof.
  intros num digits. funelim (convertToTernary_loop num digits).
  all: destruct (0 <? num)%Z eqn:Hpos;
    [ apply Z.ltb_lt in Hpos | apply Z.ltb_ge in Hpos ]; try lia.
  all: reflexivity.
Qed.

(** The loop puts in front of [digits] the digits of a standard base-3
    numeral of [num], with no leading 0. *)
Lemma convertToTernary_loop_digits : forall num : Z, (0 <= num)%Z -> forall digits,
  exists zs : list Z,
    convertToTernary_loop num digits = map JS.String_of zs ++ digits /\
    base3 zs = num /\
    Forall isTritB zs /\
    (num = 0%Z -> zs = []) /\
    (forall z rest, zs = z :: rest -> z <> 0%Z).
Proof.
  intros num Hnum. pattern num. apply Zlt_0_ind; [| exact Hnum].
  clear num Hnum. intros num IH Hnum digits.
  rewrite convertToTernary_loop_step.
  destruct (0 <? num)%Z eqn:Hpos.
  - apply Z.ltb_lt in Hpos.
    assert (0 <= num / 3 < num)%Z as Hq by (Z.to_euclidean_division_equations; lia).
    rewrite Z.rem_mod_nonneg by lia.
    destruct (IH _ Hq (JS.String_of (num mod 3) :: digits))
      as (zs & Hrun & Hval & Hall & Hnil & Hhead).
    exists (zs ++ [num mod 3]). split; [| split; [| split; [| split]]].
    + rewrite Hrun, map_app, <- app_assoc. reflexivity.
    + unfold base3 in *. rewrite fold_left_app. cbn [fold_left]. rewrite Hval.
      Z.to_euclidean_division_equations; lia.
    + apply Forall_app. split; [exact Hall |].
      constructor; [unfold isTritB; Z.to_euclidean_division_equations; lia | constructor].
    + intro H. lia.
    + intros z rest Hz. destruct zs as [| z0 zs'].
      * cbn in Hz. injection Hz as <- _.
        assert (num / 3 = 0)%Z as H0.
        { unfold base3 in Hval. cbn in Hval. lia. }
        Z.to_euclidean_division_equations; lia.
      * cbn in Hz. injection Hz as <- _. apply (Hhead z0 zs'). reflexivity.
  - apply Z.ltb_ge in Hpos. exists []. repeat split.
    + unfold base3. cbn. lia.
    + constructor.
    + intros z rest H. discriminate H.
Qed.



End ConversionsLaws.

(* ===================================================================== *)
(** * Laws of the aspect matcher                                          *)
(* ===================================================================== *)

Module AspectsLaws.
Import Types Constants Conversions Aspects Spec RationalFacts.
Local Open Scope list_scope.
Local Open Scope Q_scope.

Lemma primeSeparation_sym : forall d1 d2, primeSeparation d1 d2 = primeSeparation d2 d1.
Proof.
  intros d1 d2. unfold primeSeparation.
  rewrite (Qabs_Qminus (tropicalToPrime d1) (tropicalToPrime d2)). reflexivity.
Qed.

Lemma primeSeparation_range : forall d1 d2, 0 <= primeSeparation d1 d2 <= 182.
Proof.
  intros d1 d2. unfold primeSeparation, PRIME_CIRCLE.
  assert (0 < 364) as H364 by lra.
  pose proof (rem_nonneg_range (Qabs (tropicalToPrime d1 - tropicalToPrime d2)) 364
                H364 (Qabs_nonneg _)) as Hr.
  set (diff := JS.rem (Qabs (tropicalToPrime d1 - tropicalToPrime d2)) 364) in *.
  clearbody diff.
  destruct (JS.ltb (364 / 2) diff) eqn:E.
  - apply ltb_lt in E. assert (364 / 2 == 182) as H2 by reflexivity. lra.
  - assert (~ 364 / 2 < diff) as Hn by (intro H; apply ltb_lt in H; congruence).
    apply Qnot_lt_le in Hn. assert (364 / 2 == 182) as H2 by reflexivity. lra.
Qed.

Lemma ASPECT_TYPES_bounds :
  forallb (fun e => Qle_bool 0 (angle (snd e)) && Qle_bool (angle (snd e)) 182
                    && Qle_bool (orb (snd e)) 8) ASPECT_TYPES = true.
Proof. vm_compute. reflexivity. Qed.

(** The 364-degree matcher does not depend on the order of its two
    positions: their separation lies in [[0, 182]] and is the same either
    way round, and so is the match.  A match lies within its orb, of at
    most 8 degrees, of an exact angle of [[0, 182]]. *)
Theorem calculateAspect_is_symmetric : forall degree1 degree2 : Q,
  0 <= primeSeparation degree1 degree2 <= 182 /\
  primeSeparation degree1 degree2 = primeSeparation degree2 degree1 /\
  calculateAspect degree1 degree2 true = calculateAspect degree2 degree1 true /\
  forall r, calculateAspect degree1 degree2 true = Some r ->
    r_orb r = Qabs (primeSeparation degree1 degree2 - exact r) /\
    r_orb r <= 8 /\ 0 <= exact r <= 182.
Proof.
  intros d1 d2. split; [apply primeSeparation_range |].
  split; [apply primeSeparation_sym |]. split.
  - rewrite !AspectsProofs.calculateAspect_branches, primeSeparation_sym. reflexivity.
  - intros r Hr. rewrite AspectsProofs.calculateAspect_branches in Hr.
    pose proof (AspectsProofs.scan364_first_match (primeSeparation d1 d2) ASPECT_TYPES) as H.
    rewrite Hr in H. destruct H as (i & type & config & Hnth & Hin & -> & _).
    apply nth_error_In in Hnth.
    pose proof ASPECT_TYPES_bounds as Hb. rewrite forallb_forall in Hb.
    specialize (Hb _ Hnth). cbn [snd] in Hb.
    apply andb_prop in Hb. destruct Hb as [Hb Horb].
    apply andb_prop in Hb. destruct Hb as [Hlo Hhi].
    apply Qle_bool_iff in Hlo, Hhi, Horb. unfold inOrb in Hin.
    cbn [matchOf r_orb exact].
    generalize dependent (primeSeparation d1 d2). intros sep _ Hin.
    split; [reflexivity |]. split; [| split; assumption].
    apply Qle_trans with (orb config); assumption.
Qed.

Lemma pairwiseApart_nth : forall entries i j t1 c1 t2 c2,
  pairwiseApart entries = true -> (i < j)%nat ->
  nth_error entries i = Some (t1, c1) -> nth_error entries j = Some (t2, c2) ->
  apart c1 c2 = true.
Proof.
  induction entries as [| [t c] rest IH]; intros i j t1 c1 t2 c2 Hp Hij Hi Hj.
  - destruct i; discriminate Hi.
  - cbn [pairwiseApart] in Hp. apply andb_prop in Hp. destruct Hp as [Hhead Hrest].
    destruct j as [| j]; [lia |]. cbn [nth_error] in Hj.
    destruct i as [| i].
    + cbn in Hi. injection Hi as <- <-.
      rewrite forallb_forall in Hhead.
      apply (Hhead (t2, c2)). apply nth_error_In with j. exact Hj.
    + cbn [nth_error] in Hi. apply (IH i j t1 c1 t2 c2); [exact Hrest | lia | assumption ..].
Qed.

Lemma apart_excludes : forall sep c1 c2,
  apart c1 c2 = true -> inOrb sep c1 -> inOrb sep c2 -> False.
Proof.
  intros sep c1 c2 Ha H1 H2. unfold inOrb in *.
  apply Qabs_Qle_condition in H1, H2.
  unfold apart in Ha. apply orb_prop in Ha.
  destruct Ha as [Ha | Ha]; apply ltb_lt in Ha; lra.
Qed.

Lemma ASPECT_TYPES_apart : pairwiseApart ASPECT_TYPES = true.
Proof. vm_compute. reflexivity. Qed.

(** The orb windows of the catalog are disjoint: the separation of two
    positions never lies in the orb of two entries, so the order of the
    catalog never decides a match, and whenever the separation lies in
    the orb of an entry that entry is the match. *)
Theorem catalog_windows_are_disjoint :
  forall (degree1 degree2 : Q) (i j : nat) type1 config1 type2 config2,
    nth_error ASPECT_TYPES i = Some (type1, config1) ->
    nth_error ASPECT_TYPES j = Some (type2, config2) ->
    inOrb (primeSeparation degree1 degree2) config1 ->
    inOrb (primeSeparation degree1 degree2) config2 ->
    i = j /\
    calculateAspect degree1 degree2 true
    = Some (matchOf (primeSeparation degree1 degree2) type1 config1).
Proof.
  intros d1 d2 i j t1 c1 t2 c2 Hi Hj H1 H2.
  rewrite AspectsProofs.calculateAspect_branches.
  generalize dependent (primeSeparation d1 d2). intros sep H1 H2.
  assert (forall i j t1 c1 t2 c2,
            nth_error ASPECT_TYPES i = Some (t1, c1) ->
            nth_error ASPECT_TYPES j = Some (t2, c2) ->
            inOrb sep c1 -> inOrb sep c2 -> i = j) as Huniq.
  { clear. intros i j t1 c1 t2 c2 Hi Hj H1 H2.
    destruct (Nat.lt_trichotomy i j) as [Hlt | [Heq | Hgt]]; [| exact Heq |]; exfalso.
    - apply (apart_excludes sep c1 c2); [| assumption ..].
      apply (pairwiseApart_nth ASPECT_TYPES i j t1 c1 t2 c2 ASPECT_TYPES_apart); assumption.
    - apply (apart_excludes sep c2 c1); [| assumption ..].
      apply (pairwiseApart_nth ASPECT_TYPES j i t2 c2 t1 c1 ASPECT_TYPES_apart); assumption. }
  split; [apply (Huniq i j t1 c1 t2 c2); assumption |].
  pose proof (AspectsProofs.scan364_first_match sep ASPECT_TYPES) as H.
  destruct (scan364 sep ASPECT_TYPES) as [r |].
  - destruct H as (k & t & c & Hk & Hin & -> & _).
    assert (k = i) as -> by (apply (Huniq k i t c t1 c1); assumption).
    rewrite Hi in Hk. injection Hk as <- <-. reflexivity.
  - exfalso. apply (H t1 c1); [apply nth_error_In with i; exact Hi | exact H1].
Qed.

Lemma catalog_windows_are_disjoint_witness :
  exists config,
    calculateAspect 0 120 true = Some (matchOf (primeSeparation 0 120) "trine" config).
Proof.
  eexists.
  refine (proj2 (catalog_windows_are_disjoint 0 120 2 2 "trine" _ "trine" _ _ _ _ _)).
  - reflexivity.
  - reflexivity.
  - unfold inOrb. apply Qle_bool_iff. vm_compute. reflexivity.
  - unfold inOrb. apply Qle_bool_iff. vm_compute. reflexivity.
Defined.

Lemma rem_small_negative : forall a b : Q, 0 < b -> - b < a -> a < 0 -> JS.rem a b == a.
Proof.
  intros a b Hb Hlo Hhi. unfold JS.rem.
  assert (a / b < 0) as Hq.
  { apply Qlt_shift_div_r; lra. }
  assert (-1 < a / b) as Hq'.
  { apply Qlt_shift_div_l; lra. }
  destruct (trunc_near (a / b)) as [_ Hn]. specialize (Hn Hq).
  assert (JS.trunc (a / b) = 0%Z) as ->.
  { assert (-1 < inject_Z (JS.trunc (a / b)) < 1) as [A B] by lra.
    change (-1) with (inject_Z (-1)) in A. change 1 with (inject_Z 1) in B.
    rewrite <- Zlt_Qlt in A, B. lia. }
  change (inject_Z 0) with 0. ring.
Qed.

Lemma scan360_beyond_188 : forall diff : Q, 188 < diff ->
  scan360 diff ASPECT_TYPES_360 = None.
Proof.
  intros diff Hd. unfold ASPECT_TYPES_360. cbn [scan360].
  repeat match goal with
         | |- context [Qle_bool (Qabs (diff - ?a)) ?o] =>
             replace (Qle_bool (Qabs (diff - a)) o) with false
               by (symmetry; destruct (Qle_bool (Qabs (diff - a)) o) eqn:E;
                   [apply Qle_bool_iff, Qabs_Qle_condition in E; lra | reflexivity])
         end.
  reflexivity.
Qed.

(** The legacy 360-degree branch takes the arc the short way round only
    when the first position is not too far behind the second: for a
    second position more than 188 and less than 540 degrees ahead of the
    first it measures the long arc and finds no aspect, whatever the
    short arc is; so it depends on the order of its arguments, as 0 and
    270 show, a square one way round and nothing the other. *)
Theorem legacy_branch_is_not_symmetric : forall degree1 degree2 : Q,
  (188 < degree2 - degree1 -> degree2 - degree1 < 540 ->
   calculateAspect degree1 degree2 false = None) /\
  (exists r, calculateAspect 270 0 false = Some r /\ type r = "square"%string) /\
  calculateAspect 0 270 false = None.
Proof.
  intros d1 d2. split; [| split].
  - intros Hlo Hhi. rewrite AspectsProofs.calculateAspect_branches.
    assert (0 < 360) as H360 by lra.
    assert (Qabs (JS.rem (d1 - d2 + 180) 360 - 180) == d2 - d1) as Hdiff.
    { rewrite (rem_small_negative (d1 - d2 + 180) 360 H360) by lra.
      rewrite Qabs_neg by lra. ring. }
    apply scan360_beyond_188. rewrite Hdiff. exact Hlo.
  - eexists. split; [vm_compute; reflexivity | reflexivity].
  - vm_compute. reflexivity.
Qed.

Lemma legacy_branch_is_not_symmetric_witness : calculateAspect 10 280 false = None.
Proof.
  apply (proj1 (legacy_branch_is_not_symmetric 10 280)); lra.
Defined.

Lemma aspectsWith_In : forall p1 long1 later x,
  In x (aspectsWith p1 long1 later) <->
  exists j p2 long2 r,
    nth_error later j = Some (p2, long2) /\
    calculateAspect long1 long2 true = Some r /\
    x = aspectData p1 p2 long1 long2 r.
Proof.
  intros p1 long1 later x. induction later as [| [p2 long2] later IH].
  - cbn. split; [intros [] | intros (j & ? & ? & ? & Hj & _)].
    destruct j; discriminate Hj.
  - cbn [aspectsWith].
    destruct (calculateAspect long1 long2 true) as [r |] eqn:Hr.
    + split.
      * intros [Hx | Hx].
        -- exists 0%nat, p2, long2, r. repeat split; [exact Hr | symmetry; exact Hx].
        -- apply IH in Hx. destruct Hx as (j & q & l & r' & Hj & Hr' & Hx).
           exists (S j), q, l, r'. repeat split; assumption.
      * intros (j & q & l & r' & Hj & Hr' & Hx). destruct j as [| j].
        -- cbn in Hj. injection Hj as <- <-. rewrite Hr in Hr'. injection Hr' as <-.
           left. symmetry. exact Hx.
        -- right. apply IH. exists j, q, l, r'. repeat split; assumption.
    + split.
      * intro Hx. apply IH in Hx. destruct Hx as (j & q & l & r' & Hj & Hr' & Hx).
        exists (S j), q, l, r'. repeat split; assumption.
      * intros (j & q & l & r' & Hj & Hr' & Hx). destruct j as [| j].
        -- cbn in Hj. injection Hj as <- <-. rewrite Hr in Hr'. discriminate Hr'.
        -- apply IH. exists j, q, l, r'. repeat split; assumption.
Qed.

Lemma aspectsWith_length : forall p1 long1 later,
  (List.length (aspectsWith p1 long1 later) <= List.length later)%nat.
Proof.
  intros p1 long1 later. induction later as [| [p2 long2] later IH]; cbn [aspectsWith].
  - apply le_n.
  - destruct (calculateAspect long1 long2 true); cbn [List.length]; lia.
Qed.

(** [calculateAllAspects364] reports exactly the pairs of planets, the
    first before the second in the order of the input, whose positions
    make an aspect, each with the separation and the match of
    [calculateAspect]; so it reports at most [n (n - 1) / 2] aspects for
    [n] planets, none for fewer than two, and never pairs a planet with
    itself or reports a pair twice over. *)
Theorem calculateAllAspects364_reports_matching_pairs :
  forall (planets : list (string * Q)) (x : AspectData),
    (In x (calculateAllAspects364 planets) <->
     exists i j p1 long1 p2 long2 r,
       (i < j)%nat /\
       nth_error planets i = Some (p1, long1) /\
       nth_error planets j = Some (p2, long2) /\
       calculateAspect long1 long2 true = Some r /\
       x = aspectData p1 p2 long1 long2 r) /\
    (2 * List.length (calculateAllAspects364 planets)
     <= List.length planets * (List.length planets - 1))%nat.
Proof.
  intros planets x. split.
  - induction planets as [| [p1 long1] later IH].
    + cbn. split; [intros [] | intros (i & ? & ? & ? & ? & ? & ? & _ & Hi & _)].
      destruct i; discriminate Hi.
    + cbn [calculateAllAspects364]. rewrite in_app_iff, aspectsWith_In, IH. split.
      * intros [(j & p2 & long2 & r & Hj & Hr & Hx)
               | (i & j & q1 & l1 & q2 & l2 & r & Hij & Hi & Hj & Hr & Hx)].
        -- exists 0%nat, (S j), p1, long1, p2, long2, r.
           repeat split; [lia | assumption ..].
        -- exists (S i), (S j), q1, l1, q2, l2, r. repeat split; [lia | assumption ..].
      * intros (i & j & q1 & l1 & q2 & l2 & r & Hij & Hi & Hj & Hr & Hx).
        destruct j as [| j]; [lia |]. cbn [nth_error] in Hj.
        destruct i as [| i].
        -- cbn in Hi. injection Hi as <- <-. left.
           exists j, q2, l2, r. repeat split; assumption.
        -- cbn [nth_error] in Hi. right.
           exists i, j, q1, l1, q2, l2, r. repeat split; [lia | assumption ..].
  - clear x. induction planets as [| [p1 long1] later IH]; [cbn; lia |].
    cbn [calculateAllAspects364]. rewrite length_app.
    pose proof (aspectsWith_length p1 long1 later) as Hw.
    cbn [List.length]. nia.
Qed.

Lemma harmony_difference : forall a1 a2 : Q,
  difference (Ternary.calculateTernaryHarmony a1 a2) = primeSeparation a1 a2.
Proof.
  intros a1 a2.
  cbv beta iota zeta delta [difference Ternary.calculateTernaryHarmony primeSeparation].
  reflexivity.
Qed.

Lemma harmony_phaseOffset : forall a1 a2 : Q,
  phaseOffset (Ternary.calculateTernaryHarmony a1 a2)
  = JS.Math_round (primeSeparation a1 a2 / PHASE_SIZE).
Proof.
  intros a1 a2.
  cbv beta iota zeta delta [phaseOffset Ternary.calculateTernaryHarmony primeSeparation].
  reflexivity.
Qed.

Lemma harmony_word : forall a1 a2 : Q,
  harmonicResonance (Ternary.calculateTernaryHarmony a1 a2)
  = (if (Z.rem (phaseOffset (Ternary.calculateTernaryHarmony a1 a2)) 3 =? 0)%Z
     then "transcendent"
     else if (Z.rem (phaseOffset (Ternary.calculateTernaryHarmony a1 a2)) 3 =? 1)%Z
          then "aligned" else "dynamic")%string.
Proof.
  intros a1 a2.
  cbv beta iota zeta delta [harmonicResonance phaseOffset Ternary.calculateTernaryHarmony].
  reflexivity.
Qed.

Lemma round_phase_range : forall sep : Q,
  0 <= sep <= 182 -> (0 <= JS.Math_round (sep / PHASE_SIZE) <= 7)%Z.
Proof.
  intros sep Hr. unfold JS.Math_round, PHASE_SIZE.
  assert (sep / 28 + (1 # 2) == sep * (1 # 28) + (1 # 2)) as E by field.
  rewrite (Qfloor_comp _ _ E). split.
  - change 0%Z with (Qfloor 0). apply Qfloor_resp_le. lra.
  - change 7%Z with (Qfloor 7). apply Qfloor_resp_le. lra.
Qed.

(** [calculateTernaryHarmony] measures the separation the aspect matcher
    does, in [[0, 182]]; its phase offset is one of 0..7, its resonance
    word is that of the offset modulo 3, and it does not depend on the
    order of its two angles. *)
Theorem ternary_harmony_is_symmetric : forall angle1 angle2 : Q,
  difference (Ternary.calculateTernaryHarmony angle1 angle2)
  = primeSeparation angle1 angle2 /\
  0 <= difference (Ternary.calculateTernaryHarmony angle1 angle2) <= 182 /\
  (0 <= phaseOffset (Ternary.calculateTernaryHarmony angle1 angle2) <= 7)%Z /\
  harmonicResonance (Ternary.calculateTernaryHarmony angle1 angle2)
  = (if (phaseOffset (Ternary.calculateTernaryHarmony angle1 angle2) mod 3 =? 0)%Z
     then "transcendent"
     else if (phaseOffset (Ternary.calculateTernaryHarmony angle1 angle2) mod 3 =? 1)%Z
          then "aligned" else "dynamic")%string /\
  Ternary.calculateTernaryHarmony angle2 angle1
  = Ternary.calculateTernaryHarmony angle1 angle2.
Proof.
  intros a1 a2.
  pose proof (primeSeparation_range a1 a2) as Hr.
  assert (0 <= phaseOffset (Ternary.calculateTernaryHarmony a1 a2) <= 7)%Z as Hp.
  { rewrite harmony_phaseOffset. apply round_phase_range. exact Hr. }
  split; [apply harmony_difference |].
  split; [rewrite harmony_difference; exact Hr |].
  split; [exact Hp |].
  split.
  - rewrite harmony_word. rewrite Z.rem_mod_nonneg by lia. reflexivity.
  - unfold Ternary.calculateTernaryHarmony.
    rewrite (Qabs_Qminus (tropicalToPrime a2) (tropicalToPrime a1)). reflexivity.
Qed.

(** ** Stelliums *)

Lemma entryOf_In : forall key planets signGroups,
  NoDup (map fst signGroups) ->
  (In (key, planets) signGroups <-> entryOf key signGroups = Some planets).
Proof.
  intros key planets g. induction g as [| [k ps] g IH]; intro Hnd; cbn [entryOf In].
  - split; [intros [] | discriminate].
  - cbn [map fst] in Hnd. apply NoDup_cons_iff in Hnd. destruct Hnd as [Hk Hnd].
    destruct (String.eqb k key) eqn:E.
    + apply String.eqb_eq in E. subst k. split.
      * intros [H | H]; [injection H as <-; reflexivity |].
        exfalso. apply Hk. apply (in_map fst) in H. exact H.
      * intro H. injection H as <-. left. reflexivity.
    + apply String.eqb_neq in E. rewrite <- (IH Hnd). split.
      * intros [H | H]; [injection H as -> _; contradiction | exact H].
      * intro H. right. exact H.
Qed.

Lemma entryOf_None : forall key signGroups,
  entryOf key signGroups = None -> ~ In key (map fst signGroups).
Proof.
  intros key g. induction g as [| [k ps] g IH]; cbn [entryOf map fst In].
  - intros _ [].
  - destruct (String.eqb k key) eqn:E; [discriminate |].
    apply String.eqb_neq in E. intros H [Hk | Hk]; [contradiction | exact (IH H Hk)].
Qed.

Lemma pushPlanet_keys : forall signGroups sign planet,
  map fst (pushPlanet signGroups sign planet)
  = match entryOf sign signGroups with
    | Some _ => map fst signGroups
    | None => map fst signGroups ++ [sign]
    end.
Proof.
  intros g s p. induction g as [| [k ps] g IH]; cbn [pushPlanet entryOf map fst app].
  - reflexivity.
  - destruct (String.eqb k s) eqn:E; cbn [map fst].
    + reflexivity.
    + rewrite IH. destruct (entryOf s g); reflexivity.
Qed.

Lemma pushPlanet_entryOf : forall signGroups sign planet key,
  entryOf key (pushPlanet signGroups sign planet)
  = if String.eqb sign key
    then Some (match entryOf sign signGroups with
               | Some planets => planets
               | None => []
               end ++ [planet])
    else entryOf key signGroups.
Proof.
  intros g s p key. induction g as [| [k ps] g IH]; cbn [pushPlanet entryOf].
  - destruct (String.eqb s key); reflexivity.
  - destruct (String.eqb k s) eqn:E; cbn [entryOf].
    + apply String.eqb_eq in E. subst k. destruct (String.eqb s key); reflexivity.
    + rewrite IH. destruct (String.eqb k key) eqn:E2; [| reflexivity].
      apply String.eqb_eq in E2. subst k.
      rewrite String.eqb_sym, E. reflexivity.
Qed.

Lemma planetsIn_snoc : forall key positions entry,
  planetsIn key (positions ++ [entry])
  = planetsIn key positions
    ++ (if String.eqb (signOfLongitude (snd entry)) key then [fst entry] else []).
Proof.
  intros key l x. unfold planetsIn. rewrite filter_app, map_app. cbn [filter].
  destruct (String.eqb (signOfLongitude (snd x)) key); reflexivity.
Qed.

(** After the first loop the groups hold, under each sign that has a
    planet, the planets filed under it, and no sign twice. *)
Lemma groupBySign_entries : forall positions,
  NoDup (map fst (groupBySign positions)) /\
  forall key,
    entryOf key (groupBySign positions)
    = match planetsIn key positions with
      | [] => None
      | planets => Some planets
      end.
Proof.
  intro l. induction l as [| x l [IHnd IH]] using rev_ind.
  - split; [constructor | reflexivity].
  - unfold groupBySign in *. rewrite fold_left_app. cbn [fold_left].
    set (g := fold_left _ l []) in *. clearbody g. split.
    + rewrite pushPlanet_keys. destruct (entryOf (signOfLongitude (snd x)) g) eqn:E.
      * exact IHnd.
      * apply entryOf_None in E. apply NoDup_app; [exact IHnd | repeat constructor; intros [] |].
        intros k Hk [<- | []]. exact (E Hk).
    + intro key. rewrite pushPlanet_entryOf, planetsIn_snoc.
      destruct (String.eqb (signOfLongitude (snd x)) key) eqn:E.
      * apply String.eqb_eq in E. rewrite E, IH.
        destruct (planetsIn key l) as [| p ps]; reflexivity.
      * rewrite app_nil_r. apply IH.
Qed.

Lemma crowded_In : forall signGroups st,
  In st (crowded signGroups) <->
  In (st_sign st, st_planets st) signGroups /\ (3 <= List.length (st_planets st))%nat.
Proof.
  intros g st. induction g as [| [k ps] g IH]; cbn [crowded In].
  - tauto.
  - destruct (3 <=? List.length ps)%nat eqn:E;
      [apply Nat.leb_le in E | apply Nat.leb_gt in E]; cbn [In]; rewrite IH; split.
    + intros [<- | H]; [cbn [st_sign st_planets]; split; [left; reflexivity | exact E]
                       | split; [right |]; apply H].
    + intros [[H | H] Hlen]; [left; destruct st; cbn [st_sign st_planets] in H;
                              injection H as -> ->; reflexivity
                             | right; split; assumption].
    + intros [H Hlen]. split; [right; exact H | exact Hlen].
    + intros [[H | H] Hlen]; [injection H as -> Hp; rewrite <- Hp in Hlen; lia
                             | split; assumption].
Qed.

Lemma crowded_keys : forall signGroups,
  NoDup (map fst signGroups) -> NoDup (map st_sign (crowded signGroups)).
Proof.
  intro g. induction g as [| [k ps] g IH]; intro Hnd; cbn [crowded map].
  - constructor.
  - cbn [map fst] in Hnd. apply NoDup_cons_iff in Hnd. destruct Hnd as [Hk Hnd].
    destruct (3 <=? List.length ps)%nat; [| exact (IH Hnd)].
    cbn [map st_sign]. constructor; [| exact (IH Hnd)].
    intro Hin. apply in_map_iff in Hin. destruct Hin as (st & Hs & Hst).
    apply crowded_In in Hst. destruct Hst as [Hst _]. apply (in_map fst) in Hst.
    cbn [fst] in Hst. rewrite Hs in Hst. exact (Hk Hst).
Qed.

Lemma signOfLongitude_in_signs : forall long : Q, In (signOfLongitude long) signs.
Proof.
  intro long. unfold signOfLongitude.
  pose proof (wrap_range long 360 ltac:(lra)) as Hn.
  set (n := wrap long 360) in *. clearbody n.
  assert (n / 30 == n * (1 # 30)) as E by field.
  assert (0 <= Qfloor (n / 30) <= 11)%Z as Hi.
  { rewrite (Qfloor_comp _ _ E). split.
    - change 0%Z with (Qfloor 0). apply Qfloor_resp_le. lra.
    - assert (Qfloor (n * (1 # 30)) < 12)%Z; [| lia].
      pose proof (Qfloor_le (n * (1 # 30))) as Hf.
      assert (inject_Z (Qfloor (n * (1 # 30))) < inject_Z 12) as Hlt
        by (change (inject_Z 12) with 12; lra).
      rewrite <- Zlt_Qlt in Hlt. exact Hlt. }
  set (i := Qfloor (n / 30)) in *. clearbody i.
  assert (i = 0 \/ i = 1 \/ i = 2 \/ i = 3 \/ i = 4 \/ i = 5 \/ i = 6 \/ i = 7
          \/ i = 8 \/ i = 9 \/ i = 10 \/ i = 11)%Z as Hc by lia.
  repeat match goal with H : _ \/ _ |- _ => destruct H end; subst i;
    vm_compute; tauto.
Qed.


End AspectsLaws.

(* ===================================================================== *)
(** * Laws of the calendar                                                *)
(* ===================================================================== *)

Module ThirteenMoonLaws.
Import Types ThirteenMoon Spec DateFacts ThirteenMoonProofs.
Local Open Scope list_scope.

Lemma THIRTEEN_MOONS_arc : forall i moon,
  0 <= i <= 12 -> JS.index THIRTEEN_MOONS i = Some moon ->
  (m_arc moon = "Pre-φ" <-> i <= 7) /\ (m_arc moon = "Post-φ" <-> 8 <= i).
Proof.
  intros i moon Hi Hm.
  assert (i = 0 \/ i = 1 \/ i = 2 \/ i = 3 \/ i = 4 \/ i = 5 \/ i = 6 \/ i = 7
          \/ i = 8 \/ i = 9 \/ i = 10 \/ i = 11 \/ i = 12) as Hc by lia.
  repeat match goal with H : _ \/ _ |- _ => destruct H end; subst i;
    vm_compute in Hm; injection Hm as <-; cbn [m_arc mkMoon];
    (split; split; intro H; try lia; try reflexivity; discriminate H).
Qed.



(** The constants of the function on any day of a cycle that starts in a
    year outside -1..99: the cycle is the 365 or 366 days from April 1
    to the next March 31, and its leap day is the day 334 days after
    April 1. *)
Lemma whole_cycle_facts : forall y k ms,
  ~ (-1 <= y <= 99) -> 0 <= ms < MS_PER_DAY ->
  0 <= k < (if isLeapYear (y + 1) then 366 else 365) ->
  let t := afterApril1 y k ms in
  thirteenMoonYear t = y /\
  daysSinceNewYear t = k /\
  dotMs t = (JS.MakeDay y 3 1 + 224) * MS_PER_DAY /\
  hasLeapDay t = isLeapYear (y + 1) /\
  (isLeapYear (y + 1) = true -> hunabKuMs t = (JS.MakeDay y 3 1 + 334) * MS_PER_DAY).
Proof.
  intros y k ms Hy Hms Hk t.
  rewrite isLeapYear_InLeapYear in Hk.
  pose proof (DayFromYear_step y) as Hs. rewrite InLeapYear_DaysInYear in Hs.
  pose proof (InLeapYear_range y) as Hl0. pose proof (InLeapYear_range (y + 1)) as Hl1.
  assert (0 <= k < 365 + JS.InLeapYear (y + 1)) as Hk'.
  { destruct (JS.InLeapYear (y + 1) =? 1) eqn:E;
      [apply Z.eqb_eq in E | apply Z.eqb_neq in E]; lia. }
  assert (thirteenMoonYear t = y) as Hyear.
  { apply thirteenMoonYear_in_cycle; [lia |]. unfold t, afterApril1.
    rewrite !MakeDay_april1. unfold MS_PER_DAY in *. nia. }
  assert (hasLeapDay t = isLeapYear (y + 1)) as Hleap
    by (unfold hasLeapDay, leapYearForCycle; rewrite Hyear; reflexivity).
  split; [exact Hyear |]. split; [| split; [| split; [exact Hleap |]]].
  - unfold daysSinceNewYear, yearStartMs. rewrite Hyear.
    unfold JS.Date_UTC, THIRTEEN_MOON_NEW_YEAR_MONTH, THIRTEEN_MOON_NEW_YEAR_DAY.
    rewrite MakeFullYear_outside by lia. unfold t, afterApril1, JS.msPerDay.
    unfold MS_PER_DAY in *. div_lia.
  - unfold dotMs. rewrite Hyear.
    unfold JS.Date_UTC, DAY_OUT_OF_TIME_MONTH, DAY_OUT_OF_TIME_DAY.
    rewrite MakeFullYear_outside by lia.
    rewrite MakeDay_november11, MakeDay_april1. unfold JS.msPerDay, MS_PER_DAY. lia.
  - intro Hly. unfold hunabKuMs. rewrite Hleap, Hly. unfold leapYearForCycle.
    rewrite Hyear. unfold JS.Date_UTC.
    rewrite MakeFullYear_outside by lia.
    rewrite MakeDay_february29, MakeDay_april1. unfold JS.msPerDay, MS_PER_DAY. lia.
Qed.



(** [calculateMoonAspect] does not depend on the order of its two moons.
    For two moons at most 13 apart, as any two of the moons 1..13 are,
    the phase difference is the shorter way round the 13, between 0 and
    6, and the resonance is defined.  The resonance is missing exactly
    when the moons are more than 13 apart by a number that is not a
    multiple of 3. *)
Theorem calculateMoonAspect_is_the_shorter_way_round : forall moon1 moon2 : Z,
  calculateMoonAspect moon2 moon1 = calculateMoonAspect moon1 moon2 /\
  (Z.abs (moon1 - moon2) <= 13 ->
   0 <= phaseDifference (calculateMoonAspect moon1 moon2) <= 6 /\
   phaseDifference (calculateMoonAspect moon1 moon2)
   = Z.min (Z.abs (moon1 - moon2)) (13 - Z.abs (moon1 - moon2)) /\
   ma_gf3 (calculateMoonAspect moon1 moon2)
   = phaseDifference (calculateMoonAspect moon1 moon2) mod 3 /\
   exists text, ma_resonance (calculateMoonAspect moon1 moon2) = Some text) /\
  (ma_resonance (calculateMoonAspect moon1 moon2) = None <->
   13 < Z.abs (moon1 - moon2) /\ (Z.abs (moon1 - moon2) - 13) mod 3 <> 0).
Proof.
  intros m1 m2. split; [| split].
  - unfold calculateMoonAspect. replace (Z.abs (m2 - m1)) with (Z.abs (m1 - m2)) by lia.
    reflexivity.
  - intro Hd. unfold calculateMoonAspect; cbn [phaseDifference ma_gf3 ma_resonance].
    set (d := Z.abs (m1 - m2)) in *. assert (0 <= d) as Hd0 by (unfold d; lia).
    destruct (6 <? d) eqn:E; [apply Z.ltb_lt in E | apply Z.ltb_ge in E].
    + split; [lia |]. split; [lia |]. rewrite Z.rem_mod_nonneg by lia.
      split; [reflexivity |].
      assert ((13 - d) mod 3 = 0 \/ (13 - d) mod 3 = 1 \/ (13 - d) mod 3 = 2) as Hc
        by div_lia.
      destruct Hc as [-> | [-> | ->]]; eexists; reflexivity.
    + split; [lia |]. split; [lia |]. rewrite Z.rem_mod_nonneg by lia.
      split; [reflexivity |].
      assert (d mod 3 = 0 \/ d mod 3 = 1 \/ d mod 3 = 2) as Hc by div_lia.
      destruct Hc as [-> | [-> | ->]]; eexists; reflexivity.
  - unfold calculateMoonAspect; cbn [ma_resonance].
    set (d := Z.abs (m1 - m2)) in *. assert (0 <= d) as Hd0 by (unfold d; lia).
    clearbody d.
    destruct (6 <? d) eqn:E; [apply Z.ltb_lt in E | apply Z.ltb_ge in E].
    + destruct (Z_le_dec d 13) as [Hle | Hgt].
      * rewrite Z.rem_mod_nonneg by lia.
        assert ((13 - d) mod 3 = 0 \/ (13 - d) mod 3 = 1 \/ (13 - d) mod 3 = 2) as Hc
          by div_lia.
        destruct Hc as [-> | [-> | ->]]; (split; [discriminate | lia]).
      * assert (Z.rem (13 - d) 3 = - ((d - 13) mod 3)) as ->.
        { rewrite <- (Z.rem_mod_nonneg (d - 13) 3) by lia.
          replace (13 - d) with (- (d - 13)) by lia. apply Z.rem_opp_l. lia. }
        assert ((d - 13) mod 3 = 0 \/ (d - 13) mod 3 = 1 \/ (d - 13) mod 3 = 2) as Hc
          by div_lia.
        destruct Hc as [-> | [-> | ->]]; cbn; (split; [| reflexivity || (intros [_ H]; lia)]).
        -- discriminate.
        -- intros _. lia.
        -- intros _. lia.
    + rewrite Z.rem_mod_nonneg by lia.
      assert (d mod 3 = 0 \/ d mod 3 = 1 \/ d mod 3 = 2) as Hc by div_lia.
      destruct Hc as [-> | [-> | ->]]; (split; [discriminate | lia]).
Qed.

End ThirteenMoonLaws.

(* ===================================================================== *)
(** * Laws of the space-time bridge                                       *)
(* ===================================================================== *)

Module BridgeLaws.
Import Types Constants Conversions Bridge Spec RationalFacts ConversionsLaws.
Local Open Scope list_scope.
Local Open Scope Q_scope.

(** The three tables of thirteen line up: entry [i] of the bridge table
    names sign [i] of [SALVI_SIGNS] and moon [i] of [THIRTEEN_MOONS]. *)
Lemma tables_agree : forall i : Z, (0 <= i <= 12)%Z ->
  exists bridge moon sign,
    JS.index SIGN_MOON_BRIDGE i = Some bridge /\
    JS.index ThirteenMoon.THIRTEEN_MOONS i = Some moon /\
    JS.index SALVI_SIGNS i = Some sign /\
    b_sign bridge = sign_name sign /\
    b_moon bridge = name moon /\
    number moon = (i + 1)%Z.
Proof.
  intros i Hi.
  assert (i = 0 \/ i = 1 \/ i = 2 \/ i = 3 \/ i = 4 \/ i = 5 \/ i = 6 \/ i = 7
          \/ i = 8 \/ i = 9 \/ i = 10 \/ i = 11 \/ i = 12)%Z as Hc by lia.
  repeat match goal with H : _ \/ _ |- _ => destruct H end; subst i;
    do 3 eexists; (split; [reflexivity |]); (split; [reflexivity |]);
    (split; [reflexivity |]); repeat split.
Qed.

Lemma index_negative : forall (A : Type) (a : list A) (i : Z),
  (i < 0)%Z -> JS.index a i = None.
Proof.
  intros A a i Hi. unfold JS.index.
  replace (i <? 0)%Z with true by (symmetry; apply Z.ltb_lt; exact Hi). reflexivity.
Qed.

(** The two functions, by the sign of the index they compute. *)
Lemma bridge_run : forall d : Q,
  let i := Z.rem (Qfloor (d / PHASE_SIZE)) NUM_PHASES in
  ((i < 0)%Z ->
   (exists e, getSpaceTimeBridge d = JS.Throw e) /\
   (exists e, getFullResonance d = JS.Throw e)) /\
  ((0 <= i)%Z ->
   exists bridge moon sign b,
     JS.index SIGN_MOON_BRIDGE i = Some bridge /\
     JS.index ThirteenMoon.THIRTEEN_MOONS i = Some moon /\
     JS.index SALVI_SIGNS i = Some sign /\
     b_sign bridge = sign_name sign /\
     b_moon bridge = name moon /\
     number moon = (i + 1)%Z /\
     b = {| sign := b_sign bridge;
            moon := b_moon bridge;
            resonance := b_resonance bridge;
            phaseNumber := i + 1;
            bijectiveTernary := Ternary.bijectiveTernaryString (i + 1);
            bridge_arc := m_arc moon |} /\
     getSpaceTimeBridge d = JS.Ok b /\
     getFullResonance d
     = JS.Ok {| spatial := b;
                temporal :=
                  {| tp_moonNumber := number moon;
                     tp_moonName := name moon;
                     tp_galacticSignature := signature moon;
                     tp_harmonicTone := tone moon;
                     tp_arc := m_arc moon |};
                unity :=
                  {| u_phaseNumber := i + 1;
                     u_degreeInPhase := JS.rem d PHASE_SIZE;
                     u_dayInMoon := Qfloor (JS.rem d PHASE_SIZE) + 1;
                     u_bijectiveTernary := Ternary.bijectiveTernaryString (i + 1) |} |}).
Proof.
  intros d i.
  assert (-12 <= i <= 12)%Z as Hi by (unfold i, NUM_PHASES; DateFacts.div_lia).
  assert (forall j : Z, j = i ->
            getFullResonance d
            = match getSpaceTimeBridge d with
              | JS.Throw e => JS.Throw e
              | JS.Ok spatial =>
                  match JS.index ThirteenMoon.THIRTEEN_MOONS j with
                  | None => JS.Throw "TypeError: Cannot read properties of undefined"
                  | Some moon =>
                      JS.Ok {| spatial := spatial;
                               temporal :=
                                 {| tp_moonNumber := number moon;
                                    tp_moonName := name moon;
                                    tp_galacticSignature := signature moon;
                                    tp_harmonicTone := tone moon;
                                    tp_arc := m_arc moon |};
                               unity :=
                                 {| u_phaseNumber := j + 1;
                                    u_degreeInPhase := JS.rem d PHASE_SIZE;
                                    u_dayInMoon := Qfloor (JS.rem d PHASE_SIZE) + 1;
                                    u_bijectiveTernary :=
                                      Ternary.bijectiveTernaryString (j + 1) |} |}
                  end
              end) as Hfull by (intros j ->; reflexivity).
  assert (forall j : Z, j = i ->
            getSpaceTimeBridge d
            = match JS.index SIGN_MOON_BRIDGE j,
                    JS.index ThirteenMoon.THIRTEEN_MOONS j with
              | Some bridge, Some moon =>
                  JS.Ok {| sign := b_sign bridge;
                           moon := b_moon bridge;
                           resonance := b_resonance bridge;
                           phaseNumber := j + 1;
                           bijectiveTernary := Ternary.bijectiveTernaryString (j + 1);
                           bridge_arc := m_arc moon |}
              | _, _ => JS.Throw "TypeError: Cannot read properties of undefined"
              end) as Hbridge by (intros j ->; reflexivity).
  specialize (Hfull i eq_refl). specialize (Hbridge i eq_refl).
  clearbody i. split.
  - intro Hneg. rewrite Hfull, Hbridge, index_negative by exact Hneg.
    split; eexists; reflexivity.
  - intro Hpos.
    destruct (tables_agree i ltac:(lia)) as (bridge & moon & sign & Hb & Hm & Hs & H1 & H2 & H3).
    exists bridge, moon, sign. eexists.
    split; [exact Hb |]. split; [exact Hm |]. split; [exact Hs |].
    split; [exact H1 |]. split; [exact H2 |]. split; [exact H3 |].
    split; [reflexivity |].
    rewrite Hfull, Hbridge, Hb, Hm. split; reflexivity.
Qed.

Lemma floor_sign : forall d : Q,
  (0 <= d -> (0 <= Qfloor (d / PHASE_SIZE))%Z) /\
  (d < 0 -> (Qfloor (d / PHASE_SIZE) < 0)%Z).
Proof.
  intro d. unfold PHASE_SIZE.
  assert (d / 28 == d * (1 # 28)) as E by field.
  rewrite (Qfloor_comp _ _ E). split; intro H.
  - change 0%Z with (Qfloor 0). apply Qfloor_resp_le. lra.
  - pose proof (Qfloor_le (d * (1 # 28))) as Hf.
    assert (inject_Z (Qfloor (d * (1 # 28))) < inject_Z 0) as Hlt
      by (change (inject_Z 0) with 0; lra).
    rewrite <- Zlt_Qlt in Hlt. exact Hlt.
Qed.

(** [getSpaceTimeBridge] and [getFullResonance] answer every degree from
    0 up; below 0 they fail, by reading a field of a missing table
    entry, unless the count of whole phases below 0 is a multiple of 13. *)
Theorem bridge_fails_below_zero : forall primeDegree : Q,
  ((exists e, getSpaceTimeBridge primeDegree = JS.Throw e) <->
   primeDegree < 0 /\ (Qfloor (primeDegree / 28) mod 13 <> 0)%Z) /\
  ((exists e, getFullResonance primeDegree = JS.Throw e) <->
   primeDegree < 0 /\ (Qfloor (primeDegree / 28) mod 13 <> 0)%Z).
Proof.
  intro d. destruct (bridge_run d) as [Hneg Hpos]. destruct (floor_sign d) as [Hf0 Hf1].
  unfold PHASE_SIZE, NUM_PHASES in *. cbv zeta in *.
  set (f := Qfloor (d / 28)) in *. clearbody f.
  assert ((Z.rem f 13 < 0)%Z <-> d < 0 /\ (f mod 13 <> 0)%Z) as Hiff.
  { split.
    - intro Hr. destruct (Qlt_le_dec d 0) as [Hd | Hd].
      + split; [exact Hd |]. DateFacts.div_lia.
      + specialize (Hf0 Hd). exfalso. DateFacts.div_lia.
    - intros [Hd Hm]. specialize (Hf1 Hd). DateFacts.div_lia. }
  split; (split; [intros [e He] | intro H]).
  - apply Hiff. destruct (Z_lt_dec (Z.rem f 13) 0) as [Hlt | Hge]; [exact Hlt |].
    destruct (Hpos ltac:(lia)) as (? & ? & ? & b & _ & _ & _ & _ & _ & _ & _ & Hb & _).
    rewrite Hb in He. discriminate He.
  - apply Hiff in H. apply Hneg in H. tauto.
  - apply Hiff. destruct (Z_lt_dec (Z.rem f 13) 0) as [Hlt | Hge]; [exact Hlt |].
    destruct (Hpos ltac:(lia)) as (? & ? & ? & b & _ & _ & _ & _ & _ & _ & _ & _ & Hb).
    rewrite Hb in He. discriminate He.
  - apply Hiff in H. apply Hneg in H. tauto.
Qed.

(** The index of the bridge for a degree from 0 up: the whole phases in
    the degree reduced to one circle. *)
Lemma bridge_index : forall d : Q, 0 <= d ->
  0 <= wrap d 364 < 364 /\
  Z.rem (Qfloor (d / PHASE_SIZE)) NUM_PHASES = Qfloor (wrap d 364 / PHASE_SIZE) /\
  (0 <= Qfloor (wrap d 364 / PHASE_SIZE) <= 12)%Z /\
  JS.rem d PHASE_SIZE
  == wrap d 364 - 28 * inject_Z (Qfloor (wrap d 364 / PHASE_SIZE)).
Proof.
  intros d Hd.
  pose proof (wrap_range d 364 ltac:(lra)) as Hn.
  destruct (wrap_congruent d 364 ltac:(lra)) as [k Hk].
  pose proof (ConversionsProofs.house_index_range _ Hn) as Hg.
  pose proof (rem_nonneg_floor d 28 ltac:(lra) Hd) as Hrem.
  set (n := wrap d 364) in *. clearbody n.
  unfold PHASE_SIZE, NUM_PHASES in *.
  pose proof (Qfloor_le (n / 28)) as Hlo. pose proof (Qlt_floor (n / 28)) as Hhi.
  rewrite inject_Z_plus in Hhi. change (inject_Z 1) with 1 in Hhi.
  assert (n / 28 == n * (1 # 28)) as En by field.
  set (q := n / 28) in *. clearbody q.
  set (g := Qfloor q) in *. clearbody g.
  assert (0 <= k)%Z as Hk0.
  { assert (inject_Z (-1) < inject_Z k) as H by (change (inject_Z (-1)) with (-(1)); lra).
    rewrite <- Zlt_Qlt in H. lia. }
  assert (Qfloor (d / 28) = (g + 13 * k)%Z) as Hf.
  { apply floor_unique. rewrite inject_Z_plus, inject_Z_mult.
    change (inject_Z 13) with 13.
    assert (d / 28 == d * (1 # 28)) as -> by field. lra. }
  split; [exact Hn |]. split; [| split; [exact Hg |]].
  - rewrite Hf. DateFacts.div_lia.
  - rewrite Hrem, Hf, inject_Z_plus, inject_Z_mult. change (inject_Z 13) with 13. lra.
Qed.





End BridgeLaws.
